(** * Verification of the rule-metadata verifier and the import-restriction verifier

    Shallow embedding of
    - [packages/eslint-plugin-internal/src/rules/valid-rule-meta.ts]
      (the [valid-rule-meta] rule: [flattenExpressions], [iterateProperties],
      the [ObjectExpression], [CallExpression] and [Program:exit] visitors);
    - the [no-restricted-imports] rule ([isStringLiteral], [report], [verify]).

    Generators are embedded as the finite list of the values they yield.
    The recursion of [flattenExpressions] through scope lookup is not
    structural, so the two generators take a bound on the depth of the call
    stack and return [None] when the bound is exceeded. *)

From Stdlib Require Import List String Ascii Bool Arith Lia Relations Wellfounded
  Permutation.
Import ListNotations.
Open Scope string_scope.
Open Scope list_scope.
Set Warnings "-register-all".

(** A small error monad: [None] is a computation that does not return. *)
Definition bind {A B : Type} (m : option A) (k : A -> option B) : option B :=
  match m with
  | Some a => k a
  | None => None
  end.

Notation "x <- m ;; k" := (bind m (fun x => k))
  (at level 61, m at next level, right associativity).

(** ** The syntax tree (the part of TSESTree the two rules inspect) *)
Module TSESTree.

(** An [Identifier] node.  [range] stands for the node's identity: the
    source compares identifier nodes with [===]. *)
Record IdentifierNode : Type := mkIdentifier {
  name : string;
  range : nat
}.

Definition IdentifierNode_eqb (a b : IdentifierNode) : bool :=
  String.eqb (name a) (name b) && Nat.eqb (range a) (range b).

(** The run-time value held by the [value] field of a [Literal] node. *)
Inductive LiteralValue : Type :=
| VString (s : string)
| VBoolean (b : bool)
| VNumber (raw : string)
| VBigInt (raw : string)
| VRegExp (pattern : string)
| VNull.

Inductive Expression : Type :=
| Identifier (id : IdentifierNode)
| Literal (value : LiteralValue)
| ConditionalExpression (test consequent alternate : Expression)
| ObjectExpression (properties : list ObjectLiteralElement)
| FunctionExpression (params : list Expression)
| ArrowFunctionExpression (params : list Expression)
| MemberExpression (object property : Expression) (computed : bool)
| CallExpression (callee : Expression) (arguments : list Expression)
| OtherExpression (type : string)
with ObjectLiteralElement : Type :=
| Property (key : Expression) (computed : bool) (value : Expression)
| MethodDefinition (key : Expression) (computed : bool) (value : Expression)
| SpreadElement (argument : Expression).

Definition isObjectExpression (e : Expression) : bool :=
  match e with
  | ObjectExpression _ => true
  | _ => false
  end.

Definition isSpreadElement (p : ObjectLiteralElement) : bool :=
  match p with
  | SpreadElement _ => true
  | _ => false
  end.

End TSESTree.
Import TSESTree.

(** ** The scope manager, as the rules see it *)
Module ScopeManager.

Inductive DefinitionType : Type :=
| CatchClauseDef
| ClassNameDef
| FunctionNameDef
| ImplicitGlobalVariableDef
| ImportBindingDef
| ParameterDef
| TypeDef
| VariableDef.

Inductive DeclarationKind : Type := Const | Let | Var.

(** One entry of [variable.defs]: [def_type] is [def.type], [def_name] is
    [def.name], [parent_kind] is [def.parent.kind] (absent when the parent
    is not a variable declaration) and [node_init] is [def.node.init]. *)
Record Def : Type := mkDef {
  def_type : DefinitionType;
  def_name : IdentifierNode;
  parent_kind : option DeclarationKind;
  node_init : option Expression
}.

Record ScopeVariable : Type := mkVariable {
  defs : list Def
}.

(** A scope is used by the rule only as the first argument of
    [ASTUtils.findVariable]; it is represented by that lookup. *)
Definition Scope : Type := IdentifierNode -> option ScopeVariable.

Definition findVariable (scope : Scope) (node : IdentifierNode)
    : option ScopeVariable := scope node.

End ScopeManager.
Import ScopeManager.

(** ** valid-rule-meta *)
Module ValidRuleMeta.

(** The test of [flattenExpressions] on the variable an identifier
    resolves to; the result is [variable.defs[0].node.init] when the
    test succeeds. *)
Definition constInitializer (variable : option ScopeVariable) : option Expression :=
  match variable with
  | Some v =>
      match defs v with
      | [d] =>
          match def_type d, parent_kind d, node_init d with
          | VariableDef, Some Const, Some init => Some init
          | _, _, _ => None
          end
      | _ => None
      end
  | None => None
  end.

(** [flattenExpressions]: the list of the yielded expressions, in order.
    [fuel] bounds the depth of the recursion. *)
Fixpoint flattenExpressions (fuel : nat) (scope : Scope) (node : Expression)
  {struct fuel} : option (list Expression) :=
  match fuel with
  | O => None
  | S fuel' =>
      match node with
      | Identifier id =>
          match constInitializer (findVariable scope id) with
          | Some init => flattenExpressions fuel' scope init
          | None => Some [node]
          end
      | ConditionalExpression _ consequent alternate =>
          first <- flattenExpressions fuel' scope consequent ;;
          second <- flattenExpressions fuel' scope alternate ;;
          Some (first ++ second)
      | _ => Some [node]
      end
  end.

(** The inner loop of [iterateProperties] over the flattening of a spread
    argument: object expressions are walked, the rest sets [hasUnknown]. *)
Fixpoint walkShapes
    (walk : list ObjectLiteralElement -> option (list ObjectLiteralElement))
    (exprs : list Expression) : option (list ObjectLiteralElement) :=
  match exprs with
  | [] => Some []
  | ObjectExpression properties :: rest =>
      inner <- walk properties ;;
      others <- walkShapes walk rest ;;
      Some (inner ++ others)
  | _ :: rest => walkShapes walk rest
  end.

Definition hasUnknownShape (exprs : list Expression) : bool :=
  existsb (fun expr => negb (isObjectExpression expr)) exprs.

(** The outer loop of [iterateProperties] over [node.properties]. *)
Fixpoint walkElements
    (flatten : Expression -> option (list Expression))
    (walk : list ObjectLiteralElement -> option (list ObjectLiteralElement))
    (properties : list ObjectLiteralElement)
  : option (list ObjectLiteralElement) :=
  match properties with
  | [] => Some []
  | SpreadElement argument as prop :: rest =>
      exprs <- flatten argument ;;
      inner <- walkShapes walk exprs ;;
      others <- walkElements flatten walk rest ;;
      Some (inner ++ (if hasUnknownShape exprs then [prop] else []) ++ others)
  | prop :: rest =>
      others <- walkElements flatten walk rest ;;
      Some (prop :: others)
  end.

(** [iterateProperties], applied to the [properties] of an object
    expression. *)
Fixpoint iterateProperties (fuel : nat) (scope : Scope)
    (properties : list ObjectLiteralElement) {struct fuel}
  : option (list ObjectLiteralElement) :=
  match fuel with
  | O => None
  | S fuel' =>
      walkElements (flattenExpressions fuel' scope)
                   (iterateProperties fuel' scope) properties
  end.

(** *** The rule's state and its diagnostics *)

Inductive MessageId : Type :=
| shouldBeFixable
| shouldNotBeFixable
| shouldBeSuggestable
| shouldNotBeSuggestable.

(** The [node] of a diagnostic: a property key (what [reports] is given)
    or a whole property of [meta]. *)
Inductive ReportedNode : Type :=
| KeyNode (key : Expression)
| ElementNode (prop : ObjectLiteralElement).

Record Diagnostic : Type := mkDiagnostic {
  node : ReportedNode;
  messageId : MessageId
}.

Record ReportFindings : Type := mkReport {
  suggestNodes : list Expression;
  fixNodes : list Expression;
  hasUnknown : bool;
  found : bool
}.

(** [ruleObject]; [meta] holds the properties of the [meta] object
    expression. *)
Record RuleObject : Type := mkRuleObject {
  meta : list ObjectLiteralElement;
  context : IdentifierNode;
  report : ReportFindings
}.

(** The closure state of [create] together with what has been passed to
    [context.report] so far. *)
Record RuleState : Type := mkState {
  ruleObject : option RuleObject;
  reported : list Diagnostic
}.

Definition initialState : RuleState := mkState None [].

Definition reports (nodes : list Expression) (id : MessageId)
  : list Diagnostic :=
  map (fun key => mkDiagnostic (KeyNode key) id) nodes.

Section Rule.

(** [ASTUtils.getPropertyName], a function of the eslint-utils library,
    applied to a [Property]. *)
Variable getPropertyName : ObjectLiteralElement -> option string.

Definition named (expected : string) (prop : ObjectLiteralElement) : bool :=
  match getPropertyName prop with
  | Some n => String.eqb n expected
  | None => false
  end.

(** One turn of the loop of the [ObjectExpression] visitor. *)
Definition selectMetaCreate
    (acc : option ObjectLiteralElement * option ObjectLiteralElement)
    (prop : ObjectLiteralElement)
  : option ObjectLiteralElement * option ObjectLiteralElement :=
  match prop with
  | Property _ _ _ =>
      if named "meta" prop then (Some prop, snd acc)
      else if named "create" prop then (fst acc, Some prop)
      else acc
  | _ => acc
  end.

(** What the [ObjectExpression] visitor assigns to [ruleObject] when the
    node has the shape of a rule, [None] when it returns early. *)
Definition detectRuleObject (properties : list ObjectLiteralElement)
  : option RuleObject :=
  match fold_left selectMetaCreate properties (None, None) with
  | (Some (Property _ _ (ObjectExpression metaProperties)),
     Some (Property _ _ createValue)) =>
      match createValue with
      | FunctionExpression (Identifier ctx :: _)
      | ArrowFunctionExpression (Identifier ctx :: _) =>
          Some (mkRuleObject metaProperties ctx (mkReport [] [] false false))
      | _ => None
      end
  | _ => None
  end.

(** The [ObjectExpression] visitor. *)
Definition on_ObjectExpression (st : RuleState)
    (properties : list ObjectLiteralElement) : RuleState :=
  match ruleObject st with
  | Some _ => st
  | None =>
      match detectRuleObject properties with
      | Some rule => mkState (Some rule) (reported st)
      | None => st
      end
  end.

(** One turn of the loop of the [CallExpression] visitor over the
    properties of the report descriptor. *)
Definition collectDescriptor (r : ReportFindings)
    (prop : ObjectLiteralElement) : ReportFindings :=
  match prop with
  | Property key _ _ =>
      if named "suggest" prop then
        mkReport (suggestNodes r ++ [key]) (fixNodes r) (hasUnknown r) (found r)
      else if named "fix" prop then
        mkReport (suggestNodes r) (fixNodes r ++ [key]) (hasUnknown r) (found r)
      else r
  | _ => mkReport (suggestNodes r) (fixNodes r) true (found r)
  end.

(** The syntactic test of the [CallExpression] visitor; the result is
    [node.callee.object]. *)
Definition reportCallee (callee : Expression) (arguments : list Expression)
  : option IdentifierNode :=
  match callee with
  | MemberExpression (Identifier object) (Identifier property) _ =>
      if String.eqb (name property) "report"
         && Nat.eqb (List.length arguments) 1
      then Some object
      else None
  | _ => None
  end.

(** [variable.defs.some(def => def.name === ruleObject.context)]. *)
Definition definedBy (ctx : IdentifierNode) (variable : ScopeVariable) : bool :=
  existsb (fun def => IdentifierNode_eqb (def_name def) ctx) (defs variable).

Definition withReport (st : RuleState) (rule : RuleObject)
    (r : ReportFindings) : RuleState :=
  mkState (Some (mkRuleObject (meta rule) (context rule) r)) (reported st).

(** The [CallExpression] visitor; [scope] is [context.getScope()] at the
    visited call. *)
Definition on_CallExpression (fuel : nat) (scope : Scope) (st : RuleState)
    (callee : Expression) (arguments : list Expression)
  : option RuleState :=
  match ruleObject st with
  | None => Some st
  | Some rule =>
      match reportCallee callee arguments with
      | None => Some st
      | Some object =>
          match findVariable scope object with
          | None => Some st
          | Some variable =>
              if definedBy (context rule) variable then
                let r := report rule in
                let r1 := mkReport (suggestNodes r) (fixNodes r) (hasUnknown r) true in
                match arguments with
                | ObjectExpression descriptor :: _ =>
                    props <- iterateProperties fuel scope descriptor ;;
                    Some (withReport st rule (fold_left collectDescriptor props r1))
                | _ =>
                    Some (withReport st rule
                            (mkReport (suggestNodes r1) (fixNodes r1) true (found r1)))
                end
              else Some st
          end
      end
  end.

(** The three locals of [Program:exit] set by its loop over [meta]. *)
Record MetaScan : Type := mkScan {
  fixableProp : option ObjectLiteralElement;
  hasSuggestionsProp : option ObjectLiteralElement;
  hasSpread : bool
}.

Definition scanMeta (acc : MetaScan) (prop : ObjectLiteralElement) : MetaScan :=
  match prop with
  | SpreadElement _ => mkScan (fixableProp acc) (hasSuggestionsProp acc) true
  | Property _ _ _ =>
      if named "fixable" prop then
        mkScan (Some prop) (hasSuggestionsProp acc) (hasSpread acc)
      else if named "hasSuggestions" prop then
        mkScan (fixableProp acc) (Some prop) (hasSpread acc)
      else acc
  | MethodDefinition _ _ _ => acc
  end.

(** The first [if]/[else if] of [Program:exit], on [fixNodes]. *)
Definition checkFixable (r : ReportFindings) (m : MetaScan) : list Diagnostic :=
  match fixNodes r with
  | _ :: _ =>
      if hasSpread m then []
      else
        match fixableProp m with
        | None => reports (fixNodes r) shouldBeFixable
        | Some (Property _ _ (Literal VNull)) =>
            reports (fixNodes r) shouldBeFixable
        | Some (Property _ _ (Identifier id)) =>
            if String.eqb (name id) "undefined"
            then reports (fixNodes r) shouldBeFixable
            else []
        | Some _ => []
        end
  | [] =>
      if hasUnknown r then []
      else
        match fixableProp m with
        | Some (Property _ _ (Literal (VString _)) as prop) =>
            [mkDiagnostic (ElementNode prop) shouldNotBeFixable]
        | _ => []
        end
  end.

(** The second [if]/[else if] of [Program:exit], on [suggestNodes]. *)
Definition checkSuggestable (r : ReportFindings) (m : MetaScan)
  : list Diagnostic :=
  match suggestNodes r with
  | _ :: _ =>
      if hasSpread m then []
      else
        match hasSuggestionsProp m with
        | None => reports (suggestNodes r) shouldBeSuggestable
        | Some (Property _ _ (Literal (VBoolean true))) => []
        | Some (Property _ _ (Literal _)) =>
            reports (suggestNodes r) shouldBeSuggestable
        | Some _ => []
        end
  | [] =>
      if hasUnknown r then []
      else
        match hasSuggestionsProp m with
        | Some (Property _ _ (Literal (VBoolean true)) as prop) =>
            [mkDiagnostic (ElementNode prop) shouldNotBeSuggestable]
        | _ => []
        end
  end.

(** The [Program:exit] visitor; [scope] is [context.getScope()] at the
    end of the traversal. *)
Definition on_Program_exit (fuel : nat) (scope : Scope) (st : RuleState)
  : option RuleState :=
  match ruleObject st with
  | None => Some st
  | Some rule =>
      if negb (found (report rule)) then Some st
      else
        props <- iterateProperties fuel scope (meta rule) ;;
        let m := fold_left scanMeta props (mkScan None None false) in
        Some (mkState (ruleObject st)
                (reported st ++ checkFixable (report rule) m
                             ++ checkSuggestable (report rule) m))
  end.

(** *** The traversal

    The host calls the visitors in the order of its traversal of the
    file, then [Program:exit] once. *)
Inductive Visit : Type :=
| VisitObjectExpression (properties : list ObjectLiteralElement)
| VisitCallExpression (scope : Scope) (callee : Expression)
    (arguments : list Expression).

Definition visit (fuel : nat) (st : RuleState) (v : Visit) : option RuleState :=
  match v with
  | VisitObjectExpression properties =>
      Some (on_ObjectExpression st properties)
  | VisitCallExpression scope callee arguments =>
      on_CallExpression fuel scope st callee arguments
  end.

Fixpoint traverse (fuel : nat) (st : RuleState) (visits : list Visit)
  : option RuleState :=
  match visits with
  | [] => Some st
  | v :: rest =>
      st' <- visit fuel st v ;;
      traverse fuel st' rest
  end.

(** The diagnostics of one file. *)
Definition lint (fuel : nat) (visits : list Visit) (exitScope : Scope)
  : option (list Diagnostic) :=
  st <- traverse fuel initialState visits ;;
  st' <- on_Program_exit fuel exitScope st ;;
  Some (reported st').

End Rule.

End ValidRuleMeta.

(** ** no-restricted-imports *)
Module NoRestrictedImports.

(** [node.importKind] and [node.exportKind]. *)
Inductive ImportKind : Type := TypeImport | ValueImport.

(** The [importKind] of a parsed option: ['type'], ['value'] or ['all']. *)
Inductive RestrictedKind : Type := OnlyType | OnlyValue | All.

Definition kindApplies (restricted : RestrictedKind) (kind : ImportKind) : bool :=
  match restricted, kind with
  | All, _ => true
  | OnlyType, TypeImport => true
  | OnlyValue, ValueImport => true
  | _, _ => false
  end.

Record ParsedPathOption : Type := mkPath {
  path_name : string;
  path_importKind : RestrictedKind;
  path_importNames : option (list string);
  path_customMessage : option string
}.

(** [group_matcher] is [matcher.ignores] of the ignore library, [None] when
    the call throws: the library refuses a path that is empty or relative
    ([./x], [../x]). *)
Record ParsedPatternGroup : Type := mkGroup {
  group_matcher : string -> option bool;
  group_importKind : RestrictedKind;
  group_customMessage : option string
}.

Record SourceLocation : Type := mkLoc {
  start_line : nat;
  start_column : nat;
  end_line : nat;
  end_column : nat
}.

Inductive Specifier : Type :=
| ImportDefaultSpecifier (loc : SourceLocation)
| ImportNamespaceSpecifier (loc : SourceLocation)
| ImportSpecifier (imported : string) (loc : SourceLocation)
| ExportSpecifier (local : string) (loc : SourceLocation).

(** The three declarations the rule visits.  [starToken] is the result of
    [sourceCode.getFirstToken(node, 1)]. *)
Inductive Declaration : Type :=
| ImportDeclaration (source : option Expression) (importKind : ImportKind)
    (specifiers : list Specifier)
| ExportNamedDeclaration (source : option Expression) (exportKind : ImportKind)
    (specifiers : list Specifier)
| ExportAllDeclaration (source : option Expression) (exportKind : ImportKind)
    (starToken : option SourceLocation).

Definition source (node : Declaration) : option Expression :=
  match node with
  | ImportDeclaration s _ _ => s
  | ExportNamedDeclaration s _ _ => s
  | ExportAllDeclaration s _ _ => s
  end.

Inductive BaseMessageId : Type := path | patterns | everything | importName.

Inductive MessageId : Type :=
| Base (id : BaseMessageId)
| WithCustomMessage (id : BaseMessageId).

Record ReportData : Type := mkData {
  importSource : string;
  importNames : option string;
  importName_ : option string;
  importKindPhrase : string;
  customMessage : option string
}.

Record Diagnostic : Type := mkDiagnostic {
  node : Declaration;
  messageId : MessageId;
  loc : option SourceLocation;
  data : ReportData
}.

(** What one call of [verify] does, in order: a turn of the callback of
    [restrictedPaths.find], the call of [generateImportNames], a call of
    [matcher.ignores], a call of [context.report], and an exception
    leaving the visitor. *)
Inductive Action : Type :=
| PathCheck (restrictedPath : ParsedPathOption)
| GenerateImportNames
| PatternCheck (restrictedPatternGroup : ParsedPatternGroup)
| Report (d : Diagnostic)
| Thrown.

Definition isStringLiteral (node : option Expression) : bool :=
  match node with
  | Some (Literal (VString _)) => true
  | _ => false
  end.

(** Truthiness of an optional string. *)
Definition truthy (s : option string) : bool :=
  match s with
  | Some v => negb (String.eqb v "")
  | None => false
  end.

(** The inner function [report]; [restrictedKind] and [custom] are the
    fields of [restricted], and [src], [names] and [name] those of [data]. *)
Definition report (n : Declaration) (locs : option (list SourceLocation))
    (baseMessageId : BaseMessageId)
    (restrictedKind : RestrictedKind) (custom : option string)
    (src : string) (names name : option string) : list Action :=
  let id := if truthy custom then WithCustomMessage baseMessageId
            else Base baseMessageId in
  let phrase :=
    match restrictedKind with
    | OnlyType => "type-only import"
    | OnlyValue => "import"
    | All => "type-only import and import"
    end in
  let d := mkData src names name phrase custom in
  match locs with
  | Some ls => map (fun l => Report (mkDiagnostic n id (Some l) d)) ls
  | None => [Report (mkDiagnostic n id None d)]
  end.

(** [importNames], a [Map] from a name to its locations, in insertion
    order. *)
Fixpoint addImportName (m : list (string * list SourceLocation))
    (name : string) (l : SourceLocation) : list (string * list SourceLocation) :=
  match m with
  | [] => [(name, [l])]
  | (n, locs) :: rest =>
      if String.eqb n name then (n, locs ++ [l]) :: rest
      else (n, locs) :: addImportName rest name l
  end.

Definition collectImportNames (generated : list (string * SourceLocation))
  : list (string * list SourceLocation) :=
  fold_left (fun m entry => addImportName m (fst entry) (snd entry)) generated [].

Section Create.

(** [String.prototype.trim]. *)
Variable trim : string -> string.

(** The result of [parseOptions(context.options)]. *)
Variable restrictedPaths : list ParsedPathOption.
Variable restrictedPatternGroups : list ParsedPatternGroup.

(** [restrictedPaths.find(...)], with the turns of its callback. *)
Fixpoint findRestrictedPath (paths : list ParsedPathOption)
    (src : string) (kind : ImportKind)
  : list Action * option ParsedPathOption :=
  match paths with
  | [] => ([], None)
  | p :: rest =>
      if String.eqb (path_name p) src && kindApplies (path_importKind p) kind
      then ([PathCheck p], Some p)
      else
        let '(actions, result) := findRestrictedPath rest src kind in
        (PathCheck p :: actions, result)
  end.

(** The loop over [importNames] when the path restricts names. *)
Definition reportImportNames (n : Declaration) (p : ParsedPathOption)
    (restricted : list string) (src : string)
    (names : list (string * list SourceLocation)) : list Action :=
  flat_map (fun entry =>
    let '(name, locs) := entry in
    if String.eqb name "*" then
      report n (Some locs) everything (path_importKind p) (path_customMessage p)
             src (Some (String.concat "," restricted)) None
    else if existsb (String.eqb name) restricted then
      report n (Some locs) importName (path_importKind p) (path_customMessage p)
             src None (Some name)
    else []) names.

(** The loop over the pattern groups; it ends at the first matcher that
    throws. *)
Fixpoint checkPatternGroups (groups : list ParsedPatternGroup)
    (n : Declaration) (src : string) (kind : ImportKind) : list Action :=
  match groups with
  | [] => []
  | g :: rest =>
      PatternCheck g ::
      match group_matcher g src with
      | None => [Thrown]
      | Some ignored =>
          (if ignored && kindApplies (group_importKind g) kind
           then report n None patterns (group_importKind g)
                       (group_customMessage g) src None None
           else [])
          ++ checkPatternGroups rest n src kind
      end
  end.

(** The loop over [restrictedPatternGroups]. *)
Definition checkPatterns (n : Declaration) (src : string) (kind : ImportKind)
  : list Action :=
  checkPatternGroups restrictedPatternGroups n src kind.

(** [verify]; [generateImportNames] returns [None] when the generator
    throws. *)
Definition verify (n : Declaration) (kind : ImportKind)
    (generateImportNames : unit -> option (list (string * SourceLocation)))
  : list Action :=
  if negb (isStringLiteral (source n)) then []
  else
    match source n with
    | Some (Literal (VString value)) =>
        let src := trim value in
        let '(checks, restrictedPath) := findRestrictedPath restrictedPaths src kind in
        match restrictedPath with
        | Some p =>
            match generateImportNames tt with
            | None => checks ++ [GenerateImportNames; Thrown]
            | Some generated =>
                checks ++ [GenerateImportNames]
                ++ match path_importNames p with
                   | Some restricted =>
                       reportImportNames n p restricted src
                         (collectImportNames generated)
                   | None =>
                       report n None path (path_importKind p)
                              (path_customMessage p) src None None
                   end
                ++ checkPatterns n src kind
            end
        | None => checks ++ checkPatterns n src kind
        end
    | _ => []
    end.

Definition specifierName (s : Specifier) : string * SourceLocation :=
  match s with
  | ImportDefaultSpecifier l => ("default", l)
  | ImportNamespaceSpecifier l => ("*", l)
  | ImportSpecifier imported l => (imported, l)
  | ExportSpecifier local l => (local, l)
  end.

(** The visitors [ImportDeclaration], [ExportNamedDeclaration] and
    [ExportAllDeclaration] of the object [create] returns; [create]
    returns no visitor when nothing is restricted. *)
Definition visitDeclaration (n : Declaration) : list Action :=
  match restrictedPaths, restrictedPatternGroups with
  | [], [] => []
  | _, _ =>
      match n with
      | ImportDeclaration _ kind specifiers
      | ExportNamedDeclaration _ kind specifiers =>
          verify n kind (fun _ => Some (map specifierName specifiers))
      | ExportAllDeclaration _ kind starToken =>
          verify n kind (fun _ =>
            match starToken with
            | Some l => Some [("*", l)]
            | None => None
            end)
      end
  end.

Definition diagnostics (actions : list Action) : list Diagnostic :=
  flat_map (fun a => match a with Report d => [d] | _ => [] end) actions.

End Create.

End NoRestrictedImports.

(** ** Results of the generators and of a run, whatever the depth bound *)
Import ValidRuleMeta.

Definition Flattens (scope : Scope) (node : Expression)
    (yielded : list Expression) : Prop :=
  exists fuel, flattenExpressions fuel scope node = Some yielded.

Definition Iterates (scope : Scope) (properties : list ObjectLiteralElement)
    (yielded : list ObjectLiteralElement) : Prop :=
  exists fuel, iterateProperties fuel scope properties = Some yielded.

Definition Traverses (getPropertyName : ObjectLiteralElement -> option string)
    (st : RuleState) (visits : list Visit) (st' : RuleState) : Prop :=
  exists fuel, traverse getPropertyName fuel st visits = Some st'.

Definition Lints (getPropertyName : ObjectLiteralElement -> option string)
    (visits : list Visit) (exitScope : Scope) (ds : list Diagnostic) : Prop :=
  exists fuel, lint getPropertyName fuel visits exitScope = Some ds.

(** The binding of an identifier is followed by [flattenExpressions]: it has
    exactly one declaration, a [const] variable declaration with an
    initializer. *)
Definition resolvesToConst (scope : Scope) (id : IdentifierNode)
    (init : Expression) : Prop :=
  exists variable d,
    findVariable scope id = Some variable /\
    defs variable = [d] /\
    def_type d = VariableDef /\
    parent_kind d = Some Const /\
    node_init d = Some init.

(** What the walk of the object expressions among [shapes] yields, in
    order. *)
Inductive ShapesWalk (scope : Scope)
  : list Expression -> list ObjectLiteralElement -> Prop :=
| ShapesWalk_nil : ShapesWalk scope [] []
| ShapesWalk_object : forall properties rest inner others,
    Iterates scope properties inner ->
    ShapesWalk scope rest others ->
    ShapesWalk scope (ObjectExpression properties :: rest) (inner ++ others)
| ShapesWalk_other : forall expr rest others,
    isObjectExpression expr = false ->
    ShapesWalk scope rest others ->
    ShapesWalk scope (expr :: rest) others.

(** One step of resolution: [Resolves scope child parent] when the
    generators, given [parent], call themselves on [child]. *)
Inductive Resolves (scope : Scope) : Expression -> Expression -> Prop :=
| Resolves_init : forall id init,
    constInitializer (findVariable scope id) = Some init ->
    Resolves scope init (Identifier id)
| Resolves_consequent : forall test consequent alternate,
    Resolves scope consequent (ConditionalExpression test consequent alternate)
| Resolves_alternate : forall test consequent alternate,
    Resolves scope alternate (ConditionalExpression test consequent alternate)
| Resolves_spread : forall properties argument,
    In (SpreadElement argument) properties ->
    Resolves scope argument (ObjectExpression properties).

(** A decidable sufficient condition for the absence of an infinite
    resolution chain: every chain from [e] has fewer than [depth] steps. *)
Fixpoint boundedResolution (depth : nat) (scope : Scope) (e : Expression) : bool :=
  match depth with
  | O => false
  | S depth' =>
      match e with
      | Identifier id =>
          match constInitializer (findVariable scope id) with
          | Some init => boundedResolution depth' scope init
          | None => true
          end
      | ConditionalExpression _ consequent alternate =>
          boundedResolution depth' scope consequent
          && boundedResolution depth' scope alternate
      | ObjectExpression properties =>
          forallb (fun prop =>
                     match prop with
                     | SpreadElement argument =>
                         boundedResolution depth' scope argument
                     | _ => true
                     end) properties
      | _ => true
      end
  end.

Definition isProperty (prop : ObjectLiteralElement) : bool :=
  match prop with
  | Property _ _ _ => true
  | _ => false
  end.

(** The property of the given name that an object declares: the last
    [Property] of that name among its logical properties. *)
Definition declaredProperty
    (getPropertyName : ObjectLiteralElement -> option string)
    (expected : string) (props : list ObjectLiteralElement)
  : option ObjectLiteralElement :=
  find (fun prop => isProperty prop && named getPropertyName expected prop)
       (rev props).

Definition MessageId_eqb (a b : MessageId) : bool :=
  match a, b with
  | shouldBeFixable, shouldBeFixable
  | shouldNotBeFixable, shouldNotBeFixable
  | shouldBeSuggestable, shouldBeSuggestable
  | shouldNotBeSuggestable, shouldNotBeSuggestable => true
  | _, _ => false
  end.

Definition withMessage (id : MessageId) (ds : list Diagnostic) : list Diagnostic :=
  filter (fun d => MessageId_eqb (messageId d) id) ds.

Definition isPositive (id : MessageId) : bool :=
  match id with
  | shouldBeFixable | shouldBeSuggestable => true
  | _ => false
  end.

Definition positive (ds : list Diagnostic) : list Diagnostic :=
  filter (fun d => isPositive (messageId d)) ds.

Definition negative (ds : list Diagnostic) : list Diagnostic :=
  filter (fun d => negb (isPositive (messageId d))) ds.

Definition setHasUnknown (b : bool) (rule : RuleObject) : RuleObject :=
  mkRuleObject (meta rule) (context rule)
    (mkReport (suggestNodes (report rule)) (fixNodes (report rule)) b
              (found (report rule))).

(** The keys of the properties of the given name among the properties a
    report descriptor yields. *)
Definition keysNamed (getPropertyName : ObjectLiteralElement -> option string)
    (expected : string) (props : list ObjectLiteralElement) : list Expression :=
  flat_map (fun prop =>
              match prop with
              | Property key _ _ =>
                  if named getPropertyName expected prop then [key] else []
              | _ => []
              end) props.

(** A call [x.report(...)] in which [x] resolves to the parameter [ctx],
    whatever the number of its arguments. *)
Definition reportCallOn (ctx : IdentifierNode) (scope : Scope)
    (callee : Expression) : bool :=
  match callee with
  | MemberExpression (Identifier object) (Identifier property) _ =>
      String.eqb (name property) "report"
      && match findVariable scope object with
         | Some variable => definedBy ctx variable
         | None => false
         end
  | _ => false
  end.

(** The locals of [Program:exit] after its loop over the properties that
    [meta] yields. *)
Definition scanned (getPropertyName : ObjectLiteralElement -> option string)
    (props : list ObjectLiteralElement) : MetaScan :=
  fold_left (scanMeta getPropertyName) props (mkScan None None false).

(** The visit of an object expression that does not have the shape of a
    rule, or of a call expression. *)
Definition createsNoRule (getPropertyName : ObjectLiteralElement -> option string)
    (v : Visit) : Prop :=
  match v with
  | VisitObjectExpression properties =>
      detectRuleObject getPropertyName properties = None
  | VisitCallExpression _ _ _ => True
  end.

(** No node is collected before a report call is found. *)
Definition foundBeforeCollected (st : RuleState) : Prop :=
  forall rule,
    ruleObject st = Some rule ->
    found (report rule) = false ->
    fixNodes (report rule) = [] /\ suggestNodes (report rule) = [].

(** An expression that [flattenExpressions] yields as it is: neither a
    conditional expression nor an identifier whose binding is followed. *)
Definition flattenedForm (scope : Scope) (e : Expression) : bool :=
  match e with
  | ConditionalExpression _ _ _ => false
  | Identifier id =>
      match constInitializer (findVariable scope id) with
      | Some _ => false
      | None => true
      end
  | _ => true
  end.

(** A spread element whose argument flattens to some expression that is not
    an object expression; any property or method. *)
Definition unresolvedIfSpread (scope : Scope) (elem : ObjectLiteralElement)
  : Prop :=
  match elem with
  | SpreadElement argument =>
      exists shapes,
        Flattens scope argument shapes /\
        exists e, In e shapes /\ isObjectExpression e = false
  | _ => True
  end.

(** A restricted path, or pattern group, that [verify] acts on for the
    given import source and kind. *)
Definition pathApplies (p : NoRestrictedImports.ParsedPathOption)
    (src : string) (kind : NoRestrictedImports.ImportKind) : bool :=
  String.eqb (NoRestrictedImports.path_name p) src
  && NoRestrictedImports.kindApplies (NoRestrictedImports.path_importKind p) kind.

Definition groupApplies (g : NoRestrictedImports.ParsedPatternGroup)
    (src : string) (kind : NoRestrictedImports.ImportKind) : bool :=
  match NoRestrictedImports.group_matcher g src with
  | Some ignored =>
      ignored
      && NoRestrictedImports.kindApplies
           (NoRestrictedImports.group_importKind g) kind
  | None => false
  end.

(** The matcher of a pattern group returns on the given source. *)
Definition matcherReturns (src : string)
    (g : NoRestrictedImports.ParsedPatternGroup) : bool :=
  match NoRestrictedImports.group_matcher g src with
  | Some _ => true
  | None => false
  end.

(** The pattern groups whose matcher was called, in order. *)
Definition patternChecks (actions : list NoRestrictedImports.Action)
  : list NoRestrictedImports.ParsedPatternGroup :=
  flat_map (fun a =>
              match a with
              | NoRestrictedImports.PatternCheck g => [g]
              | _ => []
              end) actions.

Definition isThrown (a : NoRestrictedImports.Action) : bool :=
  match a with
  | NoRestrictedImports.Thrown => true
  | _ => false
  end.

(** The locations generated for a name, in order, and the locations the map
    [importNames] holds for it. *)
Definition locationsOf (name : string)
    (generated : list (string * NoRestrictedImports.SourceLocation))
  : list NoRestrictedImports.SourceLocation :=
  map snd (filter (fun entry => String.eqb (fst entry) name) generated).

Definition lookupImportName (name : string)
    (m : list (string * list NoRestrictedImports.SourceLocation))
  : list NoRestrictedImports.SourceLocation :=
  match find (fun entry => String.eqb (fst entry) name) m with
  | Some (_, locs) => locs
  | None => []
  end.

(** A generated name that is reported under a path that restricts
    [restricted]: the namespace [*] or one of the restricted names. *)
Definition nameIsReported (restricted : list string) (name : string) : bool :=
  String.eqb name "*" || existsb (String.eqb name) restricted.

(** The specifiers of the map [importNames] that are reported under a path
    that restricts [restricted], each with its location, in the order of the
    map. *)
Definition reportedSpecifiers (restricted : list string)
    (m : list (string * list NoRestrictedImports.SourceLocation))
  : list (string * option NoRestrictedImports.SourceLocation) :=
  flat_map (fun entry =>
              if nameIsReported restricted (fst entry)
              then map (fun l => (fst entry, Some l)) (snd entry)
              else []) m.

(** The specifier a diagnostic of a name restriction is about: the name in
    its data ([*] for the diagnostic of a namespace) and its location. *)
Definition reportedSpecifier (d : NoRestrictedImports.Diagnostic)
  : string * option NoRestrictedImports.SourceLocation :=
  (match NoRestrictedImports.importName_ (NoRestrictedImports.data d) with
   | Some name => name
   | None => "*"
   end,
   NoRestrictedImports.loc d).

Definition specifierEntry
    (entry : string * NoRestrictedImports.SourceLocation)
  : string * option NoRestrictedImports.SourceLocation :=
  (fst entry, Some (snd entry)).

(** The condition of the check "should be fixable" on what [meta] yields: no
    spread, and no [fixable] property or one whose value is the literal
    [null] or the identifier [undefined]. *)
Definition fixableUndeclared
    (getPropertyName : ObjectLiteralElement -> option string)
    (props : list ObjectLiteralElement) : bool :=
  negb (existsb isSpreadElement props)
  && match declaredProperty getPropertyName "fixable" props with
     | None => true
     | Some (Property _ _ (Literal VNull)) => true
     | Some (Property _ _ (Identifier id)) => String.eqb (name id) "undefined"
     | Some _ => false
     end.

(** The condition of the check "should be suggestable": no spread, and no
    [hasSuggestions] property or one whose value is a literal other than
    [true]. *)
Definition suggestionsUndeclared
    (getPropertyName : ObjectLiteralElement -> option string)
    (props : list ObjectLiteralElement) : bool :=
  negb (existsb isSpreadElement props)
  && match declaredProperty getPropertyName "hasSuggestions" props with
     | None => true
     | Some (Property _ _ (Literal (VBoolean true))) => false
     | Some (Property _ _ (Literal _)) => true
     | Some _ => false
     end.

(** A report site: the visit of a call [x.report(argument)] in which [x]
    resolves to the parameter [ctx]. *)
Definition isReportSite (ctx : IdentifierNode) (v : Visit) : bool :=
  match v with
  | VisitCallExpression scope callee arguments =>
      reportCallOn ctx scope callee && Nat.eqb (List.length arguments) 1
  | VisitObjectExpression _ => false
  end.

(** ** Sample files

    [staticPropertyName] is [getPropertyName] on the keys that occur in the
    samples: identifiers and strings that are not computed. *)
Module Samples.

Definition staticPropertyName (prop : ObjectLiteralElement) : option string :=
  match prop with
  | Property key false _ | MethodDefinition key false _ =>
      match key with
      | Identifier id => Some (name id)
      | Literal (VString s) => Some s
      | _ => None
      end
  | _ => None
  end.

Definition ident (n : string) (position : nat) : Expression :=
  Identifier (mkIdentifier n position).

Definition prop (n : string) (v : Expression) : ObjectLiteralElement :=
  Property (ident n 0) false v.

(** The parameter of [create(context) { ... }]. *)
Definition contextParam : IdentifierNode := mkIdentifier "context" 1.

Definition ruleMetaInit : Expression :=
  ObjectExpression [prop "fixable" (Literal (VString "code"))].

(** A file scope: [context] is the parameter of [create], [ruleMeta] is
    declared by [const ruleMeta = { fixable: 'code' }], [base] by
    [const base = flag ? ruleMeta : other] and [loop] by
    [const loop = flag ? {} : loop]. *)
Definition fileScope : Scope := fun id =>
  if String.eqb (name id) "context" then
    Some (mkVariable [mkDef ParameterDef contextParam None None])
  else if String.eqb (name id) "ruleMeta" then
    Some (mkVariable [mkDef VariableDef (mkIdentifier "ruleMeta" 2)
                            (Some Const) (Some ruleMetaInit)])
  else if String.eqb (name id) "base" then
    Some (mkVariable [mkDef VariableDef (mkIdentifier "base" 3) (Some Const)
                            (Some (ConditionalExpression (ident "flag" 4)
                                     (ident "ruleMeta" 5) (ident "other" 6)))])
  else if String.eqb (name id) "loop" then
    Some (mkVariable [mkDef VariableDef (mkIdentifier "loop" 7) (Some Const)
                            (Some (ConditionalExpression (ident "flag" 4)
                                     (ObjectExpression []) (ident "loop" 8)))])
  else None.

(** A scope in which only [context] is declared. *)
Definition createScope : Scope := fun id =>
  if String.eqb (name id) "context" then
    Some (mkVariable [mkDef ParameterDef contextParam None None])
  else None.

(** [{ meta: { ... }, create(context) { ... } }]. *)
Definition ruleObjectOf (metaProperties : list ObjectLiteralElement)
  : list ObjectLiteralElement :=
  [prop "meta" (ObjectExpression metaProperties);
   prop "create" (FunctionExpression [Identifier contextParam])].

(** The visits of [export default createRule({ meta, create(context) {
    return { Program(node) { calls } } } })]. *)
Definition ruleFile (scope : Scope) (metaProperties : list ObjectLiteralElement)
    (calls : list Visit) : list Visit :=
  [VisitCallExpression scope (ident "createRule" 9)
     [ObjectExpression (ruleObjectOf metaProperties)];
   VisitObjectExpression (ruleObjectOf metaProperties);
   VisitObjectExpression metaProperties;
   VisitObjectExpression [prop "Program" (FunctionExpression [ident "node" 10])]]
  ++ calls.

(** [context.report(arguments)]. *)
Definition contextReport (scope : Scope) (arguments : list Expression) : Visit :=
  VisitCallExpression scope
    (MemberExpression (ident "context" 11) (ident "report" 12) false) arguments.

(** [{ node, messageId: 'test', extra }]. *)
Definition descriptor (extra : list ObjectLiteralElement) : Expression :=
  ObjectExpression
    ([prop "node" (ident "node" 13); prop "messageId" (Literal (VString "test"))]
     ++ extra).

Definition fixMethod : ObjectLiteralElement :=
  Property (ident "fix" 14) false (FunctionExpression []).

Definition suggestProperty : ObjectLiteralElement :=
  Property (ident "suggest" 15) false (OtherExpression "ArrayExpression").

Definition fixableCode : ObjectLiteralElement :=
  prop "fixable" (Literal (VString "code")).

(** [meta: { fixable: 'code' }] and [rule.Program(node)], no report. *)
Definition fileWithoutReport : list Visit :=
  ruleFile createScope [fixableCode]
    [VisitCallExpression createScope
       (MemberExpression (ident "rule" 16) (ident "Program" 17) false)
       [ident "node" 18]].

(** [meta: { fixable: 'code' }] and [context.report({ node, messageId })]. *)
Definition fileNotFixable : list Visit :=
  ruleFile createScope [fixableCode]
    [contextReport createScope [descriptor []];
     VisitObjectExpression
       [prop "node" (ident "node" 13); prop "messageId" (Literal (VString "test"))]].

(** [meta: {}] and [context.report({ node, messageId, fix() {} })]. *)
Definition fileFix : list Visit :=
  ruleFile createScope [] [contextReport createScope [descriptor [fixMethod]]].

(** [meta: { hasSuggestions: true }] and
    [context.report({ node, messageId, fix() {}, ...reportObject })]. *)
Definition fileUnknown : list Visit :=
  ruleFile createScope [prop "hasSuggestions" (Literal (VBoolean true))]
    [contextReport createScope
       [descriptor [fixMethod; SpreadElement (ident "reportObject" 19)]]].

(** [meta: { ...ruleMeta }] and a report with [fix] and [suggest]. *)
Definition fileSpread (scope : Scope) (extra : list ObjectLiteralElement)
  : list Visit :=
  ruleFile scope [SpreadElement (ident "ruleMeta" 20)]
    [contextReport scope [descriptor extra]].

(** [meta: { ...loop }] and [context.report({ node, messageId })]. *)
Definition fileLoop : list Visit :=
  ruleFile fileScope [SpreadElement (ident "loop" 8)]
    [contextReport fileScope [descriptor []]].

(** [meta: { fixable: 'code' }] and [context.report(node, 'message')]. *)
Definition fileTwoArguments : list Visit :=
  ruleFile createScope [fixableCode]
    [contextReport createScope [ident "node" 13; Literal (VString "message")]].

(** Two objects of the shape of a rule in one file. *)
Definition fileTwoRules : list Visit :=
  [VisitObjectExpression (ruleObjectOf []);
   VisitObjectExpression (ruleObjectOf [fixableCode])].

(** The declaration [export { a }], which has no [source]. *)
Definition exportLocal : NoRestrictedImports.Declaration :=
  NoRestrictedImports.ExportNamedDeclaration None NoRestrictedImports.ValueImport
    [NoRestrictedImports.ExportSpecifier "a" (NoRestrictedImports.mkLoc 1 9 1 10)].

Definition restrictFoo : list NoRestrictedImports.ParsedPathOption :=
  [NoRestrictedImports.mkPath "foo" NoRestrictedImports.All None None].

(** [import d, { b, a, b as c } from ' foo '], whose specifiers import
    [default], [b], [a] and [b]. *)
Definition importFoo : NoRestrictedImports.Declaration :=
  NoRestrictedImports.ImportDeclaration (Some (Literal (VString " foo ")))
    NoRestrictedImports.ValueImport
    [NoRestrictedImports.ImportDefaultSpecifier (NoRestrictedImports.mkLoc 1 7 1 8);
     NoRestrictedImports.ImportSpecifier "b" (NoRestrictedImports.mkLoc 1 12 1 13);
     NoRestrictedImports.ImportSpecifier "a" (NoRestrictedImports.mkLoc 1 15 1 21);
     NoRestrictedImports.ImportSpecifier "b" (NoRestrictedImports.mkLoc 1 23 1 29)].

(** [export * from 'foo'] for which no second token is found. *)
Definition exportAllFoo : NoRestrictedImports.Declaration :=
  NoRestrictedImports.ExportAllDeclaration (Some (Literal (VString "foo")))
    NoRestrictedImports.ValueImport None.

Definition restrictFooNames : NoRestrictedImports.ParsedPathOption :=
  NoRestrictedImports.mkPath "foo" NoRestrictedImports.All (Some ["b"])
    (Some "Use bar.").

Definition restrictFooTypes : NoRestrictedImports.ParsedPathOption :=
  NoRestrictedImports.mkPath "foo" NoRestrictedImports.OnlyType None None.

(** A matcher for the pattern [foo]: as the library does, it throws on a
    path that is empty or starts with [./] or [../]. *)
Definition ignoresFoo (src : string) : option bool :=
  if String.eqb src "" || String.prefix "./" src || String.prefix "../" src
  then None
  else Some (String.eqb src "foo").

Definition matchFoo : NoRestrictedImports.ParsedPatternGroup :=
  NoRestrictedImports.mkGroup ignoresFoo NoRestrictedImports.OnlyType None.

(** [import x from './foo']. *)
Definition importRelative : NoRestrictedImports.Declaration :=
  NoRestrictedImports.ImportDeclaration (Some (Literal (VString "./foo")))
    NoRestrictedImports.ValueImport
    [NoRestrictedImports.ImportDefaultSpecifier (NoRestrictedImports.mkLoc 1 7 1 8)].

(** [trim] on a string whose white space is made of spaces only. *)
Fixpoint trimStart (s : string) : string :=
  match s with
  | String " "%char rest => trimStart rest
  | _ => s
  end.

Definition reverse (s : string) : string :=
  string_of_list_ascii (rev (list_ascii_of_string s)).

Definition trimSpaces (s : string) : string :=
  reverse (trimStart (reverse (trimStart s))).

(** [meta: { hasSuggestions: false }] and a report with [suggest]. *)
Definition fileSuggest : list Visit :=
  ruleFile createScope [prop "hasSuggestions" (Literal (VBoolean false))]
    [contextReport createScope [descriptor [suggestProperty]]].

(** [meta: { hasSuggestions: true }] and a report without [suggest]. *)
Definition fileNotSuggestable : list Visit :=
  ruleFile createScope [prop "hasSuggestions" (Literal (VBoolean true))]
    [contextReport createScope [descriptor []]].

(** [meta: { hasSuggestions: enabled, fixable: kind() }] and a report with
    [suggest] only. *)
Definition fileComputedMeta : list Visit :=
  ruleFile createScope
    [prop "hasSuggestions" (ident "enabled" 21);
     prop "fixable" (CallExpression (ident "kind" 22) [])]
    [contextReport createScope [descriptor [suggestProperty]]].

(** [meta: { fixable: 'code', hasSuggestions: true }] and
    [context.report(descriptor)]. *)
Definition fileOpaqueDescriptor : list Visit :=
  ruleFile createScope
    [fixableCode; prop "hasSuggestions" (Literal (VBoolean true))]
    [contextReport createScope [ident "descriptor" 23]].

(** [meta: { ...base }], which yields [fixable: 'code'] and the spread, and
    a report with [fix] and [suggest]. *)
Definition filePartialSpread : list Visit :=
  ruleFile fileScope [SpreadElement (ident "base" 0)]
    [contextReport fileScope [descriptor [fixMethod; suggestProperty]]].

(** [meta: {}] and the single report call
    [context.report({ node, messageId, ...(quick ? { fix: a } : { fix: b }) })]. *)
Definition fileFixBranches : list Visit :=
  ruleFile createScope []
    [contextReport createScope
       [descriptor
          [SpreadElement
             (ConditionalExpression (ident "quick" 24)
                (ObjectExpression
                   [Property (ident "fix" 25) false (ident "a" 26)])
                (ObjectExpression
                   [Property (ident "fix" 27) false (ident "b" 28)]))]]].

(** [ruleObject] at the end of the traversal of [fileUnknown]. *)
Definition unknownRule : RuleObject :=
  mkRuleObject [prop "hasSuggestions" (Literal (VBoolean true))] contextParam
    (mkReport [] [ident "fix" 14] true true).

End Samples.

(** ** Properties of the error monad and of the depth bound *)

Lemma bind_Some {A B : Type} (m : option A) (k : A -> option B) (b : B) :
  bind m k = Some b <-> exists a, m = Some a /\ k a = Some b.
Proof.
  destruct m as [a|]; simpl; split.
  - intros H; exists a; auto.
  - intros [a' [Ha Hk]]; inversion Ha; subst; assumption.
  - discriminate.
  - intros [a' [Ha _]]; discriminate.
Qed.

Ltac bind_inv H :=
  let a := fresh "r" in
  let Ha := fresh "H" a in
  apply bind_Some in H; destruct H as [a [Ha H]].

Lemma flattenExpressions_mono scope :
  forall fuel fuel' node l,
    flattenExpressions fuel scope node = Some l ->
    fuel <= fuel' ->
    flattenExpressions fuel' scope node = Some l.
Proof.
  induction fuel as [|fuel IH]; intros fuel' node l H Hle; [discriminate|].
  destruct fuel' as [|fuel']; [lia|].
  assert (Hle' : fuel <= fuel') by lia.
  simpl in *. destruct node; try assumption.
  - destruct (constInitializer (findVariable scope id)); eauto.
  - bind_inv H. bind_inv H. inversion H; subst; clear H.
    rewrite (IH _ _ _ Hr Hle'). simpl.
    rewrite (IH _ _ _ Hr0 Hle'). reflexivity.
Qed.

Lemma walkShapes_mono walk walk' :
  (forall ps l, walk ps = Some l -> walk' ps = Some l) ->
  forall exprs l, walkShapes walk exprs = Some l -> walkShapes walk' exprs = Some l.
Proof.
  intros Hw; induction exprs as [|e rest IH]; intros l H; [assumption|].
  destruct e; simpl in *; eauto.
  bind_inv H. bind_inv H. inversion H; subst; clear H.
  rewrite (Hw _ _ Hr). simpl. rewrite (IH _ Hr0). reflexivity.
Qed.

Lemma walkElements_mono flatten flatten' walk walk' :
  (forall e l, flatten e = Some l -> flatten' e = Some l) ->
  (forall ps l, walk ps = Some l -> walk' ps = Some l) ->
  forall props l,
    walkElements flatten walk props = Some l ->
    walkElements flatten' walk' props = Some l.
Proof.
  intros Hf Hw; induction props as [|p rest IH]; intros l H; [assumption|].
  destruct p; simpl in *.
  - bind_inv H. inversion H; subst. rewrite (IH _ Hr). reflexivity.
  - bind_inv H. inversion H; subst. rewrite (IH _ Hr). reflexivity.
  - bind_inv H. bind_inv H. bind_inv H. inversion H; subst; clear H.
    rewrite (Hf _ _ Hr). simpl.
    rewrite (walkShapes_mono _ _ Hw _ _ Hr0). simpl.
    rewrite (IH _ Hr1). reflexivity.
Qed.

Lemma iterateProperties_mono scope :
  forall fuel fuel' props l,
    iterateProperties fuel scope props = Some l ->
    fuel <= fuel' ->
    iterateProperties fuel' scope props = Some l.
Proof.
  induction fuel as [|fuel IH]; intros fuel' props l H Hle; [discriminate|].
  destruct fuel' as [|fuel']; [lia|].
  simpl in *.
  eapply walkElements_mono; [| |exact H].
  - intros e l' He. eapply flattenExpressions_mono; [exact He|lia].
  - intros ps l' Hp. eapply IH; [exact Hp|lia].
Qed.

(** ** The generators as relations *)

Lemma Flattens_functional scope node l1 l2 :
  Flattens scope node l1 -> Flattens scope node l2 -> l1 = l2.
Proof.
  intros [f1 H1] [f2 H2].
  apply flattenExpressions_mono with (fuel' := Nat.max f1 f2) in H1; [|lia].
  apply flattenExpressions_mono with (fuel' := Nat.max f1 f2) in H2; [|lia].
  congruence.
Qed.

Lemma Iterates_functional scope props l1 l2 :
  Iterates scope props l1 -> Iterates scope props l2 -> l1 = l2.
Proof.
  intros [f1 H1] [f2 H2].
  apply iterateProperties_mono with (fuel' := Nat.max f1 f2) in H1; [|lia].
  apply iterateProperties_mono with (fuel' := Nat.max f1 f2) in H2; [|lia].
  congruence.
Qed.

Lemma resolvesToConst_iff scope id init :
  resolvesToConst scope id init <->
  constInitializer (findVariable scope id) = Some init.
Proof.
  unfold resolvesToConst, constInitializer. split.
  - intros [v [d [Hv [Hd [Ht [Hk Hi]]]]]].
    rewrite Hv, Hd, Ht, Hk, Hi. reflexivity.
  - destruct (findVariable scope id) as [v|]; [|discriminate].
    destruct (defs v) as [|d [|d' ds]] eqn:Hd; try discriminate.
    destruct (def_type d) eqn:Ht; try discriminate.
    destruct (parent_kind d) as [[| |]|] eqn:Hk; try discriminate.
    destruct (node_init d) as [i|] eqn:Hi; try discriminate.
    intros H; inversion H; subst. exists v, d. auto.
Qed.

Lemma Flattens_identifier_const scope id init l :
  constInitializer (findVariable scope id) = Some init ->
  Flattens scope (Identifier id) l <-> Flattens scope init l.
Proof.
  intros Hc; split; intros [fuel H].
  - destruct fuel as [|fuel]; [discriminate|]. simpl in H. rewrite Hc in H.
    exists fuel; assumption.
  - exists (S fuel). simpl. rewrite Hc. assumption.
Qed.

Lemma Flattens_identifier_opaque scope id l :
  constInitializer (findVariable scope id) = None ->
  Flattens scope (Identifier id) l <-> l = [Identifier id].
Proof.
  intros Hc; split.
  - intros [fuel H]. destruct fuel as [|fuel]; [discriminate|].
    simpl in H. rewrite Hc in H. congruence.
  - intros ->. exists 1. simpl. rewrite Hc. reflexivity.
Qed.

Lemma Flattens_conditional scope test consequent alternate l :
  Flattens scope (ConditionalExpression test consequent alternate) l <->
  exists l1 l2,
    Flattens scope consequent l1 /\ Flattens scope alternate l2 /\ l = l1 ++ l2.
Proof.
  split.
  - intros [fuel H]. destruct fuel as [|fuel]; [discriminate|]. simpl in H.
    bind_inv H. bind_inv H. inversion H; subst.
    exists r, r0. repeat split; exists fuel; assumption.
  - intros [l1 [l2 [[f1 H1] [[f2 H2] ->]]]].
    exists (S (Nat.max f1 f2)). simpl.
    rewrite (flattenExpressions_mono _ _ (Nat.max f1 f2) _ _ H1) by lia.
    simpl.
    rewrite (flattenExpressions_mono _ _ (Nat.max f1 f2) _ _ H2) by lia.
    reflexivity.
Qed.

Lemma Flattens_other scope node l :
  (forall id, node <> Identifier id) ->
  (forall test consequent alternate,
      node <> ConditionalExpression test consequent alternate) ->
  Flattens scope node l <-> l = [node].
Proof.
  intros Hid Hcond; split.
  - intros [fuel H]. destruct fuel as [|fuel]; [discriminate|].
    destruct node;
      try (exfalso; eapply Hid; reflexivity);
      try (exfalso; eapply Hcond; reflexivity);
      simpl in H; congruence.
  - intros ->. exists 1.
    destruct node;
      try (exfalso; eapply Hid; reflexivity);
      try (exfalso; eapply Hcond; reflexivity);
      reflexivity.
Qed.

Lemma flattenExpressions_nonempty scope :
  forall fuel node l, flattenExpressions fuel scope node = Some l -> l <> [].
Proof.
  induction fuel as [|fuel IH]; intros node l H; [discriminate|].
  simpl in H. destruct node; try (inversion H; discriminate).
  - destruct (constInitializer (findVariable scope id)); eauto.
    inversion H; discriminate.
  - bind_inv H. bind_inv H. inversion H; subst.
    apply IH in Hr. destruct r; [congruence|discriminate].
Qed.

Lemma walkShapes_sound scope fuel :
  forall shapes inner,
    walkShapes (iterateProperties fuel scope) shapes = Some inner ->
    ShapesWalk scope shapes inner.
Proof.
  induction shapes as [|e rest IH]; intros inner H; simpl in H.
  - inversion H; constructor.
  - destruct e; try (apply ShapesWalk_other; [reflexivity|auto]).
    bind_inv H. bind_inv H. inversion H; subst.
    apply ShapesWalk_object; [exists fuel; assumption|auto].
Qed.

Lemma walkShapes_complete scope :
  forall shapes inner,
    ShapesWalk scope shapes inner ->
    exists fuel, forall fuel',
        fuel <= fuel' ->
        walkShapes (iterateProperties fuel' scope) shapes = Some inner.
Proof.
  induction 1 as [|ps rest inner others [f1 Hi] _ [f2 IH]|e rest others He _ [f IH]].
  - exists 0; reflexivity.
  - exists (Nat.max f1 f2). intros fuel' Hle. simpl.
    rewrite (iterateProperties_mono _ _ fuel' _ _ Hi) by lia. simpl.
    rewrite IH by lia. reflexivity.
  - exists f. intros fuel' Hle.
    destruct e; simpl; try (apply IH; assumption). discriminate.
Qed.

Lemma Iterates_nil scope l : Iterates scope [] l <-> l = [].
Proof.
  split.
  - intros [fuel H]. destruct fuel; [discriminate|]. simpl in H. congruence.
  - intros ->. exists 1. reflexivity.
Qed.

Lemma Iterates_cons_plain scope prop rest l :
  isSpreadElement prop = false ->
  Iterates scope (prop :: rest) l <->
  exists others, Iterates scope rest others /\ l = prop :: others.
Proof.
  intros Hp; split.
  - intros [fuel H]. destruct fuel as [|fuel]; [discriminate|]. simpl in H.
    destruct prop; try discriminate;
      bind_inv H; inversion H; subst; exists r; (split; [|reflexivity]);
      exists (S fuel); assumption.
  - intros [others [[fuel H] ->]].
    destruct fuel as [|fuel]; [discriminate|].
    exists (S fuel). simpl in *.
    destruct prop; try discriminate; rewrite H; reflexivity.
Qed.

Lemma Iterates_cons_spread scope argument rest l :
  Iterates scope (SpreadElement argument :: rest) l <->
  exists shapes inner others,
    Flattens scope argument shapes /\
    ShapesWalk scope shapes inner /\
    Iterates scope rest others /\
    l = inner
        ++ (if hasUnknownShape shapes then [SpreadElement argument] else [])
        ++ others.
Proof.
  split.
  - intros [fuel H]. destruct fuel as [|fuel]; [discriminate|]. simpl in H.
    bind_inv H. bind_inv H. bind_inv H. inversion H; subst.
    exists r, r0, r1. repeat split.
    + exists fuel; assumption.
    + eapply walkShapes_sound; eassumption.
    + exists (S fuel); assumption.
  - intros [shapes [inner [others [[f1 Hf] [Hw [[f2 Hr] ->]]]]]].
    apply walkShapes_complete in Hw. destruct Hw as [f3 Hw].
    destruct f2 as [|f2]; [discriminate|]. simpl in Hr.
    exists (S (Nat.max f1 (Nat.max f2 f3))). simpl.
    rewrite (flattenExpressions_mono _ _ (Nat.max f1 (Nat.max f2 f3)) _ _ Hf) by lia.
    simpl. rewrite Hw by lia. simpl.
    erewrite walkElements_mono; [reflexivity| | |exact Hr].
    + intros e l' He. eapply flattenExpressions_mono; [exact He|lia].
    + intros ps l' Hp. eapply iterateProperties_mono; [exact Hp|lia].
Qed.

Lemma hasUnknownShape_true shapes :
  hasUnknownShape shapes = true <->
  exists e, In e shapes /\ isObjectExpression e = false.
Proof.
  unfold hasUnknownShape. rewrite existsb_exists.
  split; intros [e [Hin He]]; exists e; split; auto.
  - apply negb_true_iff; assumption.
  - apply negb_true_iff; assumption.
Qed.

Lemma hasUnknownShape_false shapes :
  hasUnknownShape shapes = false <->
  forall e, In e shapes -> isObjectExpression e = true.
Proof.
  split.
  - intros H e Hin. destruct (isObjectExpression e) eqn:He; [reflexivity|].
    assert (hasUnknownShape shapes = true)
      by (apply hasUnknownShape_true; exists e; auto).
    congruence.
  - intros H. destruct (hasUnknownShape shapes) eqn:Hu; [|reflexivity].
    apply hasUnknownShape_true in Hu. destruct Hu as [e [Hin He]].
    rewrite (H e Hin) in He. discriminate.
Qed.

(** C6.  [flattenExpressions] yields, for an identifier whose binding has
    exactly one declaration, a [const] variable declaration with an
    initializer, what the initializer flattens to; for a conditional
    expression, what its consequent flattens to followed by what its
    alternate flattens to; and for every other node, the node itself, once. *)
Theorem flattenExpressions_yields scope :
  (forall id init l,
      resolvesToConst scope id init ->
      Flattens scope (Identifier id) l <-> Flattens scope init l) /\
  (forall test consequent alternate l,
      Flattens scope (ConditionalExpression test consequent alternate) l <->
      exists l1 l2,
        Flattens scope consequent l1 /\
        Flattens scope alternate l2 /\
        l = l1 ++ l2) /\
  (forall node l,
      (forall id init, node = Identifier id -> ~ resolvesToConst scope id init) ->
      (forall test consequent alternate,
          node <> ConditionalExpression test consequent alternate) ->
      Flattens scope node l <-> l = [node]).
Proof.
  split; [|split].
  - intros id init l Hr. apply Flattens_identifier_const.
    apply resolvesToConst_iff; assumption.
  - intros. apply Flattens_conditional.
  - intros node l Hid Hcond.
    destruct node as [id| | | | | | | |];
      try (apply Flattens_other; [discriminate|assumption]).
    + apply Flattens_identifier_opaque.
      destruct (constInitializer (findVariable scope id)) as [init|] eqn:Hc;
        [|reflexivity].
      exfalso. apply (Hid id init eq_refl).
      apply resolvesToConst_iff; assumption.
Qed.

(** In [fileScope], [base] flattens to the object [ruleMeta] is initialised
    with, followed by the identifier [other]. *)
Lemma flattenExpressions_yields_witness :
  Flattens Samples.fileScope (Samples.ident "base" 0)
    [Samples.ruleMetaInit; Samples.ident "other" 6].
Proof.
  destruct (flattenExpressions_yields Samples.fileScope) as [Hconst [Hcond Hself]].
  apply (Hconst (mkIdentifier "base" 0)
           (ConditionalExpression (Samples.ident "flag" 4)
              (Samples.ident "ruleMeta" 5) (Samples.ident "other" 6))).
  - apply resolvesToConst_iff. reflexivity.
  - apply Hcond.
    exists [Samples.ruleMetaInit], [Samples.ident "other" 6].
    split; [|split; [|reflexivity]].
    + apply (Hconst (mkIdentifier "ruleMeta" 5) Samples.ruleMetaInit).
      * apply resolvesToConst_iff. reflexivity.
      * apply Hself; [discriminate|discriminate|reflexivity].
    + apply Hself; [|discriminate|reflexivity].
      intros id init Heq Hr. inversion Heq; subst.
      apply resolvesToConst_iff in Hr. discriminate.
Defined.

(** C7.  [iterateProperties] yields a property or a method directly; for a
    spread element it yields what the walk of every object expression in
    the flattening of the argument yields, then the spread element itself,
    once, if and only if some expression of the flattening is not an object
    expression; then it goes on with the rest of the properties. *)
Theorem iterateProperties_yields scope :
  (forall l, Iterates scope [] l <-> l = []) /\
  (forall prop rest l,
      isSpreadElement prop = false ->
      Iterates scope (prop :: rest) l <->
      exists others, Iterates scope rest others /\ l = prop :: others) /\
  (forall argument rest l,
      Iterates scope (SpreadElement argument :: rest) l <->
      exists shapes inner unknown others,
        Flattens scope argument shapes /\
        ShapesWalk scope shapes inner /\
        ((unknown = [SpreadElement argument] /\
          exists e, In e shapes /\ isObjectExpression e = false) \/
         (unknown = [] /\
          forall e, In e shapes -> isObjectExpression e = true)) /\
        Iterates scope rest others /\
        l = inner ++ unknown ++ others).
Proof.
  split; [|split].
  - apply Iterates_nil.
  - intros; apply Iterates_cons_plain; assumption.
  - intros argument rest l. rewrite Iterates_cons_spread. split.
    + intros [shapes [inner [others [Hf [Hw [Hr ->]]]]]].
      exists shapes, inner,
        (if hasUnknownShape shapes then [SpreadElement argument] else []), others.
      repeat split; auto.
      destruct (hasUnknownShape shapes) eqn:Hu.
      * left; split; [reflexivity|apply hasUnknownShape_true; assumption].
      * right; split; [reflexivity|apply hasUnknownShape_false; assumption].
    + intros [shapes [inner [unknown [others [Hf [Hw [Hu [Hr ->]]]]]]]].
      exists shapes, inner, others. repeat split; auto.
      destruct Hu as [[-> Hu]|[-> Hu]].
      * apply hasUnknownShape_true in Hu. rewrite Hu. reflexivity.
      * apply hasUnknownShape_false in Hu. rewrite Hu. reflexivity.
Qed.

(** In [fileScope], the object [{ ...base, x }] yields the [fixable]
    property of [ruleMeta], then the spread element, then [x]. *)
Lemma iterateProperties_yields_witness :
  Iterates Samples.fileScope
    [SpreadElement (Samples.ident "base" 0); Samples.prop "x" (Literal VNull)]
    [Samples.fixableCode; SpreadElement (Samples.ident "base" 0);
     Samples.prop "x" (Literal VNull)].
Proof.
  destruct (iterateProperties_yields Samples.fileScope) as [Hnil [Hplain Hspread]].
  apply Hspread.
  exists [Samples.ruleMetaInit; Samples.ident "other" 6], [Samples.fixableCode],
    [SpreadElement (Samples.ident "base" 0)], [Samples.prop "x" (Literal VNull)].
  split; [|split; [|split; [|split]]].
  - exists 4. reflexivity.
  - apply (ShapesWalk_object Samples.fileScope [Samples.fixableCode]
             [Samples.ident "other" 6] [Samples.fixableCode] []).
    + apply Hplain; [reflexivity|]. exists []. split; [|reflexivity].
      apply Hnil. reflexivity.
    + apply ShapesWalk_other; [reflexivity|constructor].
  - left. split; [reflexivity|].
    exists (Samples.ident "other" 6). split; [right; left; reflexivity|reflexivity].
  - apply Hplain; [reflexivity|]. exists []. split; [|reflexivity].
    apply Hnil. reflexivity.
  - reflexivity.
Defined.

(** ** Termination *)

Lemma flattenExpressions_reaches scope :
  forall fuel node l,
    flattenExpressions fuel scope node = Some l ->
    forall e, In e l -> clos_refl_trans _ (Resolves scope) e node.
Proof.
  induction fuel as [|fuel IH]; intros node l H e Hin; [discriminate|].
  simpl in H.
  destruct node;
    try (inversion H; subst; destruct Hin as [<-|[]]; apply rt_refl).
  - destruct (constInitializer (findVariable scope id)) as [init|] eqn:Hc.
    + eapply rt_trans; [eapply IH; eassumption|].
      apply rt_step. constructor; assumption.
    + inversion H; subst. destruct Hin as [<-|[]]. apply rt_refl.
  - bind_inv H. bind_inv H. inversion H; subst.
    apply in_app_or in Hin. destruct Hin as [Hin|Hin].
    + eapply rt_trans; [exact (IH _ _ Hr _ Hin)|]. apply rt_step. constructor.
    + eapply rt_trans; [exact (IH _ _ Hr0 _ Hin)|]. apply rt_step. constructor.
Qed.

Lemma Flattens_total scope node :
  Acc (Resolves scope) node -> exists l, Flattens scope node l.
Proof.
  induction 1 as [node _ IH].
  destruct node as [id| |test consequent alternate| | | | | |];
    try (eexists; apply Flattens_other; [discriminate|discriminate|reflexivity]).
  - destruct (constInitializer (findVariable scope id)) as [init|] eqn:Hc.
    + destruct (IH init (Resolves_init _ _ _ Hc)) as [l Hl].
      exists l. apply (Flattens_identifier_const _ _ _ _ Hc). assumption.
    + eexists. apply Flattens_identifier_opaque; [assumption|reflexivity].
  - destruct (IH consequent (Resolves_consequent _ _ _ _)) as [l1 H1].
    destruct (IH alternate (Resolves_alternate _ _ _ _)) as [l2 H2].
    exists (l1 ++ l2). apply Flattens_conditional. exists l1, l2. auto.
Qed.

Lemma clos_trans_after_refl_trans {A : Type} (R : relation A) x y z :
  clos_refl_trans A R x y -> R y z -> clos_trans A R x z.
Proof.
  intros Hxy Hyz. apply clos_rt_rt1n in Hxy.
  induction Hxy as [|x y' w Hstep _ IH].
  - apply t_step; assumption.
  - eapply t_trans; [apply t_step; eassumption|apply IH; assumption].
Qed.

Lemma Iterates_total scope properties :
  Acc (Resolves scope) (ObjectExpression properties) ->
  exists l, Iterates scope properties l.
Proof.
  intros Hacc. apply Acc_clos_trans in Hacc.
  remember (ObjectExpression properties) as object eqn:Hobject.
  revert properties Hobject.
  induction Hacc as [object Hacc IH]; intros properties ->.
  assert (Hsub : forall sub, incl sub properties -> exists l, Iterates scope sub l).
  { induction sub as [|prop sub IHsub]; intros Hincl.
    - exists []. apply Iterates_nil. reflexivity.
    - destruct IHsub as [others Hothers].
      { intros x Hx. apply Hincl. right; assumption. }
      destruct prop as [key computed value|key computed value|argument].
      + eexists. apply Iterates_cons_plain; [reflexivity|]. eauto.
      + eexists. apply Iterates_cons_plain; [reflexivity|]. eauto.
      + assert (Hstep : Resolves scope argument (ObjectExpression properties))
          by (constructor; apply Hincl; left; reflexivity).
        destruct (Flattens_total scope argument) as [shapes Hshapes].
        { apply Acc_incl with (R2 := clos_trans _ (Resolves scope)).
          - intros x y Hxy. apply t_step; assumption.
          - apply Hacc. apply t_step; assumption. }
        assert (Hwalk : exists inner, ShapesWalk scope shapes inner).
        { assert (Hreach : forall e, In e shapes ->
                    clos_trans _ (Resolves scope) e (ObjectExpression properties)).
          { intros e He. destruct Hshapes as [fuel Hfuel].
            eapply clos_trans_after_refl_trans; [|exact Hstep].
            eapply flattenExpressions_reaches; eassumption. }
          clear Hshapes. induction shapes as [|shape shapes IHshapes].
          - exists []. constructor.
          - destruct IHshapes as [rest Hrest].
            { intros e He. apply Hreach. right; assumption. }
            destruct (isObjectExpression shape) eqn:Hshape.
            + destruct shape; try discriminate.
              destruct (IH _ (Hreach _ (or_introl eq_refl)) _ eq_refl)
                as [inner Hinner].
              exists (inner ++ rest). constructor; assumption.
            + exists rest. apply ShapesWalk_other; assumption. }
        destruct Hwalk as [inner Hinner].
        eexists. apply Iterates_cons_spread.
        exists shapes, inner, others. repeat split; eauto. }
  apply Hsub. apply incl_refl.
Qed.

Lemma boundedResolution_Acc scope :
  forall depth e, boundedResolution depth scope e = true -> Acc (Resolves scope) e.
Proof.
  induction depth as [|depth IH]; intros e H; [discriminate|].
  constructor. intros child Hchild.
  inversion Hchild; subst; simpl in H.
  - rewrite H0 in H. apply IH; assumption.
  - apply andb_true_iff in H. apply IH; tauto.
  - apply andb_true_iff in H. apply IH; tauto.
  - rewrite forallb_forall in H. apply IH. apply (H _ H0).
Qed.

Lemma loop_flattening_exceeds_every_bound :
  forall fuel,
    flattenExpressions fuel Samples.fileScope (Samples.ident "loop" 8) = None /\
    flattenExpressions fuel Samples.fileScope
      (ConditionalExpression (Samples.ident "flag" 4) (ObjectExpression [])
         (Samples.ident "loop" 8)) = None.
Proof.
  induction fuel as [|fuel [IHid IHcond]]; [split; reflexivity|].
  split.
  - exact IHcond.
  - change (bind (flattenExpressions fuel Samples.fileScope (ObjectExpression []))
              (fun first =>
                 bind (flattenExpressions fuel Samples.fileScope
                         (Samples.ident "loop" 8))
                      (fun second => Some (first ++ second))) = None).
    rewrite IHid.
    destruct (flattenExpressions fuel Samples.fileScope (ObjectExpression []));
      reflexivity.
Qed.


(** C4, amended.  When no chain of resolution steps from a node is infinite
    (a step goes from an identifier bound by a single initialised [const]
    to its initializer, from a conditional expression to either branch, and
    from an object expression to the argument of one of its spread
    elements), [flattenExpressions] on the node, and [iterateProperties] when
    the node is an object expression, return one finite list of yielded
    values. *)
Theorem generators_terminate_on_acyclic_resolution scope node :
  Acc (Resolves scope) node ->
  (exists l, Flattens scope node l /\
             forall l', Flattens scope node l' -> l' = l) /\
  (forall properties,
      node = ObjectExpression properties ->
      exists l, Iterates scope properties l /\
                forall l', Iterates scope properties l' -> l' = l).
Proof.
  intros Hacc. split.
  - destruct (Flattens_total scope node Hacc) as [l Hl].
    exists l. split; [assumption|].
    intros l' Hl'. eapply Flattens_functional; eassumption.
  - intros properties ->.
    destruct (Iterates_total scope properties Hacc) as [l Hl].
    exists l. split; [assumption|].
    intros l' Hl'. eapply Iterates_functional; eassumption.
Qed.

(** In [fileScope], the object [{ ...base }] has no infinite chain. *)
Lemma generators_terminate_on_acyclic_resolution_witness :
  exists l,
    Iterates Samples.fileScope [SpreadElement (Samples.ident "base" 0)] l.
Proof.
  destruct (generators_terminate_on_acyclic_resolution Samples.fileScope
              (ObjectExpression [SpreadElement (Samples.ident "base" 0)]))
    as [_ Hwalk].
  - apply boundedResolution_Acc with (depth := 5). vm_compute. reflexivity.
  - destruct (Hwalk _ eq_refl) as [l [Hl _]]. exists l. exact Hl.
Defined.

(** ** The visitors *)

Section Visitors.

Variable getPropertyName : ObjectLiteralElement -> option string.

Lemma on_CallExpression_mono fuel fuel' scope st callee arguments st' :
  on_CallExpression getPropertyName fuel scope st callee arguments = Some st' ->
  fuel <= fuel' ->
  on_CallExpression getPropertyName fuel' scope st callee arguments = Some st'.
Proof.
  unfold on_CallExpression. intros H Hle.
  destruct (ruleObject st) as [rule|]; [|assumption].
  destruct (reportCallee callee arguments) as [object|]; [|assumption].
  destruct (findVariable scope object) as [variable|]; [|assumption].
  destruct (definedBy (context rule) variable); [|assumption].
  cbv zeta in *.
  destruct arguments as [|[] ?]; try assumption.
  bind_inv H. rewrite (iterateProperties_mono _ _ _ _ _ Hr Hle). assumption.
Qed.

Lemma traverse_mono fuel fuel' :
  fuel <= fuel' ->
  forall visits st st',
    traverse getPropertyName fuel st visits = Some st' ->
    traverse getPropertyName fuel' st visits = Some st'.
Proof.
  intros Hle. induction visits as [|v rest IH]; intros st st' H; [assumption|].
  simpl in *. bind_inv H.
  assert (Hv : visit getPropertyName fuel' st v = Some r).
  { destruct v; simpl in *; [assumption|].
    eapply on_CallExpression_mono; eassumption. }
  rewrite Hv. simpl. apply IH; assumption.
Qed.

Lemma on_Program_exit_mono fuel fuel' scope st st' :
  on_Program_exit getPropertyName fuel scope st = Some st' ->
  fuel <= fuel' ->
  on_Program_exit getPropertyName fuel' scope st = Some st'.
Proof.
  unfold on_Program_exit. intros H Hle.
  destruct (ruleObject st) as [rule|]; [|assumption].
  destruct (negb (found (report rule))); [assumption|].
  bind_inv H. rewrite (iterateProperties_mono _ _ _ _ _ Hr Hle). assumption.
Qed.

Lemma lint_mono fuel fuel' visits exitScope ds :
  lint getPropertyName fuel visits exitScope = Some ds ->
  fuel <= fuel' ->
  lint getPropertyName fuel' visits exitScope = Some ds.
Proof.
  unfold lint. intros H Hle. bind_inv H. bind_inv H.
  rewrite (traverse_mono _ _ Hle _ _ _ Hr). simpl.
  rewrite (on_Program_exit_mono _ _ _ _ _ Hr0 Hle). assumption.
Qed.

Lemma Lints_functional visits exitScope ds1 ds2 :
  Lints getPropertyName visits exitScope ds1 ->
  Lints getPropertyName visits exitScope ds2 ->
  ds1 = ds2.
Proof.
  intros [f1 H1] [f2 H2].
  apply lint_mono with (fuel' := Nat.max f1 f2) in H1; [|lia].
  apply lint_mono with (fuel' := Nat.max f1 f2) in H2; [|lia].
  congruence.
Qed.

(** What the visitors keep: the diagnostics, and the [meta] and [context]
    of a rule object once it is set. *)
Lemma on_ObjectExpression_keeps st properties rule :
  ruleObject st = Some rule ->
  on_ObjectExpression getPropertyName st properties = st.
Proof.
  unfold on_ObjectExpression. intros ->. reflexivity.
Qed.

Lemma on_ObjectExpression_reported st properties :
  reported (on_ObjectExpression getPropertyName st properties) = reported st.
Proof.
  unfold on_ObjectExpression.
  destruct (ruleObject st); [reflexivity|].
  destruct (detectRuleObject getPropertyName properties); reflexivity.
Qed.

Lemma on_CallExpression_keeps fuel scope st callee arguments st' :
  on_CallExpression getPropertyName fuel scope st callee arguments = Some st' ->
  reported st' = reported st /\
  (ruleObject st = None -> ruleObject st' = None) /\
  (forall rule,
      ruleObject st = Some rule ->
      exists rule',
        ruleObject st' = Some rule' /\
        meta rule' = meta rule /\
        context rule' = context rule).
Proof.
  unfold on_CallExpression. intros H.
  destruct (ruleObject st) as [rule|] eqn:Hrule.
  - assert (Hsame : Some st = Some st' ->
                    reported st' = reported st /\
                    (Some rule = None -> ruleObject st' = None) /\
                    (forall rule0, Some rule = Some rule0 ->
                       exists rule', ruleObject st' = Some rule' /\
                                     meta rule' = meta rule0 /\
                                     context rule' = context rule0)).
    { intros Heq; inversion Heq; subst. split; [reflexivity|].
      split; [discriminate|]. intros rule0 Heq0; inversion Heq0; subst.
      exists rule0. auto. }
    destruct (reportCallee callee arguments) as [object|]; [|auto].
    destruct (findVariable scope object) as [variable|]; [|auto].
    destruct (definedBy (context rule) variable); [|auto].
    cbv zeta in H.
    assert (Hset : forall r,
               Some (withReport st rule r) = Some st' ->
               reported st' = reported st /\
               (Some rule = None -> ruleObject st' = None) /\
               (forall rule0, Some rule = Some rule0 ->
                  exists rule', ruleObject st' = Some rule' /\
                                meta rule' = meta rule0 /\
                                context rule' = context rule0)).
    { intros r Heq; inversion Heq; subst. split; [reflexivity|].
      split; [discriminate|]. intros rule0 Heq0; inversion Heq0; subst.
      eexists. simpl. auto. }
    destruct arguments as [|[] ?]; try (eapply Hset; eassumption).
    bind_inv H. eapply Hset; eassumption.
  - inversion H; subst. split; [reflexivity|].
    split; [auto|]. intros rule Heq. congruence.
Qed.

Lemma traverse_reported fuel :
  forall visits st st',
    traverse getPropertyName fuel st visits = Some st' ->
    reported st' = reported st.
Proof.
  induction visits as [|v rest IH]; intros st st' H; simpl in H.
  - inversion H; reflexivity.
  - bind_inv H. rewrite (IH _ _ H).
    destruct v; simpl in Hr.
    + inversion Hr; subst. apply on_ObjectExpression_reported.
    + apply on_CallExpression_keeps in Hr. tauto.
Qed.

Lemma traverse_keeps_rule fuel :
  forall visits st st' rule,
    traverse getPropertyName fuel st visits = Some st' ->
    ruleObject st = Some rule ->
    exists rule',
      ruleObject st' = Some rule' /\
      meta rule' = meta rule /\
      context rule' = context rule.
Proof.
  induction visits as [|v rest IH]; intros st st' rule H Hrule; simpl in H.
  - inversion H; subst. exists rule. auto.
  - bind_inv H.
    assert (Hstep : exists rule1, ruleObject r = Some rule1 /\
                                  meta rule1 = meta rule /\
                                  context rule1 = context rule).
    { destruct v; simpl in Hr.
      - inversion Hr; subst.
        rewrite (on_ObjectExpression_keeps _ _ _ Hrule). exists rule. auto.
      - apply on_CallExpression_keeps in Hr.
        destruct Hr as [_ [_ Hr]]. apply Hr; assumption. }
    destruct Hstep as [rule1 [H1 [Hm Hc]]].
    destruct (IH _ _ _ H H1) as [rule' [H' [Hm' Hc']]].
    exists rule'. repeat split; congruence.
Qed.

Lemma traverse_without_rule fuel :
  forall visits st st',
    traverse getPropertyName fuel st visits = Some st' ->
    ruleObject st = None ->
    Forall (createsNoRule getPropertyName) visits ->
    ruleObject st' = None.
Proof.
  induction visits as [|v rest IH]; intros st st' H Hnone Hall; simpl in H.
  - inversion H; subst; assumption.
  - bind_inv H. inversion Hall as [|v' rest' Hv Hrest]; subst.
    apply (IH _ _ H); [|assumption].
    destruct v; simpl in Hr, Hv.
    + inversion Hr; subst. unfold on_ObjectExpression.
      rewrite Hnone, Hv. assumption.
    + apply on_CallExpression_keeps in Hr. tauto.
Qed.

Lemma traverse_app fuel visits1 visits2 st st' :
  traverse getPropertyName fuel st (visits1 ++ visits2) = Some st' <->
  exists mid,
    traverse getPropertyName fuel st visits1 = Some mid /\
    traverse getPropertyName fuel mid visits2 = Some st'.
Proof.
  revert st. induction visits1 as [|v rest IH]; intros st; simpl.
  - split.
    + intros H; exists st; auto.
    + intros [mid [Heq H]]; inversion Heq; subst; assumption.
  - split.
    + intros H. bind_inv H. apply IH in H. destruct H as [mid [H1 H2]].
      exists mid. rewrite Hr. simpl. auto.
    + intros [mid [H1 H2]]. bind_inv H1. rewrite Hr. simpl.
      apply IH. exists mid. auto.
Qed.

End Visitors.

(** C4, as stated, fails: with [const loop = flag ? {} : loop] in scope, the
    flattening of [loop], and the walk of [{ ...loop }], return no list of
    yielded values whatever the depth allowed; and so does the run of the
    rule on [fileLoop], whose [meta] is [{ ...loop }]. *)
Lemma flattenExpressions_cycle_diverges :
  (forall l, ~ Flattens Samples.fileScope (Samples.ident "loop" 8) l) /\
  (forall l, ~ Iterates Samples.fileScope
                 [SpreadElement (Samples.ident "loop" 8)] l) /\
  (forall ds, ~ Lints Samples.staticPropertyName Samples.fileLoop
                  Samples.fileScope ds).
Proof.
  assert (Hwalk : forall l, ~ Iterates Samples.fileScope
                              [SpreadElement (Samples.ident "loop" 8)] l).
  { intros l H. apply Iterates_cons_spread in H.
    destruct H as [shapes [_ [_ [[fuel H] _]]]].
    rewrite (proj1 (loop_flattening_exceeds_every_bound fuel)) in H.
    discriminate. }
  split; [|split; [exact Hwalk|]].
  - intros l [fuel H].
    rewrite (proj1 (loop_flattening_exceeds_every_bound fuel)) in H.
    discriminate.
  - intros ds [fuel H]. unfold lint in H. bind_inv H. bind_inv H.
    destruct fuel as [|fuel]; [vm_compute in Hr; discriminate|].
    assert (Hst : traverse Samples.staticPropertyName 1 initialState
                    Samples.fileLoop
                  = Some (mkState
                            (Some (mkRuleObject
                                     [SpreadElement (Samples.ident "loop" 8)]
                                     Samples.contextParam
                                     (mkReport [] [] false true))) []))
      by (vm_compute; reflexivity).
    apply (traverse_mono Samples.staticPropertyName 1 (S fuel) ltac:(lia))
      in Hst.
    rewrite Hst in Hr. inversion Hr; subst r. clear Hr Hst.
    unfold on_Program_exit in Hr0. cbn [ruleObject report found meta negb] in Hr0.
    destruct (iterateProperties (S fuel) Samples.fileScope
                [SpreadElement (Samples.ident "loop" 8)]) as [props|] eqn:Hprops;
      [|discriminate].
    apply (Hwalk props). exists (S fuel). exact Hprops.
Qed.

(** ** Detection of the rule object *)

Section Detection.

Variable getPropertyName : ObjectLiteralElement -> option string.

Lemma named_exclusive a b prop :
  named getPropertyName a prop = true ->
  named getPropertyName b prop = true ->
  a = b.
Proof.
  unfold named. destruct (getPropertyName prop) as [n|]; [|discriminate].
  intros Ha Hb. apply String.eqb_eq in Ha, Hb. congruence.
Qed.

Lemma declaredProperty_snoc expected props prop :
  declaredProperty getPropertyName expected (props ++ [prop]) =
  if isProperty prop && named getPropertyName expected prop
  then Some prop
  else declaredProperty getPropertyName expected props.
Proof.
  unfold declaredProperty. rewrite rev_app_distr. reflexivity.
Qed.

Lemma declaredProperty_is_named expected props prop :
  declaredProperty getPropertyName expected props = Some prop ->
  In prop props /\ isProperty prop = true /\
  named getPropertyName expected prop = true.
Proof.
  unfold declaredProperty. intros H. apply find_some in H.
  destruct H as [Hin H]. apply andb_true_iff in H.
  split; [apply in_rev; assumption|assumption].
Qed.

Lemma selectMetaCreate_fold :
  forall props acc,
    fold_left (selectMetaCreate getPropertyName) props acc =
    (match declaredProperty getPropertyName "meta" props with
     | Some p => Some p
     | None => fst acc
     end,
     match declaredProperty getPropertyName "create" props with
     | Some p => Some p
     | None => snd acc
     end).
Proof.
  induction props as [|prop props IH] using rev_ind; intros acc.
  - destruct acc; reflexivity.
  - rewrite fold_left_app. simpl. rewrite IH.
    rewrite !declaredProperty_snoc.
    destruct prop as [key computed value|key computed value|argument];
      try reflexivity.
    simpl.
    destruct (named getPropertyName "meta" (Property key computed value)) eqn:Hm;
      destruct (named getPropertyName "create" (Property key computed value))
        eqn:Hc;
      try reflexivity.
    pose proof (named_exclusive _ _ _ Hm Hc). discriminate.
Qed.

Lemma detectRuleObject_shape properties rule :
  detectRuleObject getPropertyName properties = Some rule <->
  exists metaKey metaComputed createKey createComputed createValue rest,
    declaredProperty getPropertyName "meta" properties =
      Some (Property metaKey metaComputed (ObjectExpression (meta rule))) /\
    declaredProperty getPropertyName "create" properties =
      Some (Property createKey createComputed createValue) /\
    (createValue = FunctionExpression (Identifier (context rule) :: rest) \/
     createValue = ArrowFunctionExpression (Identifier (context rule) :: rest)) /\
    report rule = mkReport [] [] false false.
Proof.
  unfold detectRuleObject. rewrite selectMetaCreate_fold. simpl. split.
  - destruct (declaredProperty getPropertyName "meta" properties)
      as [[mk mc [| | |metaProps| | | | |]| |]|]; try discriminate.
    destruct (declaredProperty getPropertyName "create" properties)
      as [[ck cc cv| |]|]; try discriminate.
    destruct cv as [| | | |[|[ctx| | | | | | | |] rest]
                    |[|[ctx| | | | | | | |] rest]| | |];
      try discriminate;
      intros H; inversion H; subst; simpl;
      exists mk, mc, ck, cc; eexists; exists rest; auto.
  - intros [mk [mc [ck [cc [cv [rest [Hm [Hc [Hv Hr]]]]]]]]].
    rewrite Hm, Hc. destruct rule as [m c r]; simpl in *; subst r.
    destruct Hv as [->| ->]; reflexivity.
Qed.

End Detection.

(** C8.  The [ObjectExpression] visitor sets the rule object, with empty
    findings, at an object expression that declares [meta] as an object
    expression and [create] as a function whose first parameter is an
    identifier, when none is set; it changes nothing otherwise.  So the rule
    object of a traversal is that of the first such object expression,
    whatever is visited after it, and nothing is reported before
    [Program:exit]. *)
Theorem single_rule_object getPropertyName :
  (forall properties rule,
      detectRuleObject getPropertyName properties = Some rule <->
      exists metaKey metaComputed createKey createComputed createValue rest,
        declaredProperty getPropertyName "meta" properties =
          Some (Property metaKey metaComputed (ObjectExpression (meta rule))) /\
        declaredProperty getPropertyName "create" properties =
          Some (Property createKey createComputed createValue) /\
        (createValue = FunctionExpression (Identifier (context rule) :: rest) \/
         createValue = ArrowFunctionExpression (Identifier (context rule) :: rest)) /\
        report rule = mkReport [] [] false false) /\
  (forall st properties,
      ruleObject st = None ->
      on_ObjectExpression getPropertyName st properties =
      match detectRuleObject getPropertyName properties with
      | Some rule => mkState (Some rule) (reported st)
      | None => st
      end) /\
  (forall st properties rule,
      ruleObject st = Some rule ->
      on_ObjectExpression getPropertyName st properties = st) /\
  (forall before properties after rule st',
      Forall (createsNoRule getPropertyName) before ->
      detectRuleObject getPropertyName properties = Some rule ->
      Traverses getPropertyName initialState
        (before ++ VisitObjectExpression properties :: after) st' ->
      exists rule',
        ruleObject st' = Some rule' /\
        meta rule' = meta rule /\
        context rule' = context rule) /\
  (forall visits st',
      Traverses getPropertyName initialState visits st' -> reported st' = []).
Proof.
  split; [|split; [|split; [|split]]].
  - intros. apply detectRuleObject_shape.
  - intros st properties Hnone. unfold on_ObjectExpression. rewrite Hnone.
    reflexivity.
  - intros. eapply on_ObjectExpression_keeps; eassumption.
  - intros before properties after rule st' Hbefore Hdetect [fuel H].
    apply traverse_app in H. destruct H as [mid [H1 H2]].
    pose proof (traverse_without_rule _ _ _ _ _ H1 eq_refl Hbefore) as Hmid.
    simpl in H2. unfold on_ObjectExpression in H2.
    rewrite Hmid, Hdetect in H2. simpl in H2.
    eapply traverse_keeps_rule; [exact H2|reflexivity].
  - intros visits st' [fuel H]. apply traverse_reported in H. assumption.
Qed.

(** In [fileTwoRules] the rule object is that of the first object. *)
Lemma single_rule_object_witness :
  exists st' rule',
    traverse Samples.staticPropertyName 0 initialState Samples.fileTwoRules
    = Some st' /\
    ruleObject st' = Some rule' /\
    meta rule' = [] /\
    context rule' = Samples.contextParam.
Proof.
  destruct (single_rule_object Samples.staticPropertyName)
    as [_ [_ [_ [Hfirst _]]]].
  set (rule := mkRuleObject [] Samples.contextParam (mkReport [] [] false false)).
  destruct (Hfirst [] (Samples.ruleObjectOf [])
              [VisitObjectExpression (Samples.ruleObjectOf [Samples.fixableCode])]
              rule (mkState (Some rule) []))
    as [rule' [Hrule' [Hmeta Hcontext]]].
  - constructor.
  - vm_compute. reflexivity.
  - exists 0. vm_compute. reflexivity.
  - exists (mkState (Some rule) []), rule'.
    split; [vm_compute; reflexivity|]. auto.
Defined.

(** ** Report calls that do not pass exactly one argument *)

Lemma reportCallee_arity callee arguments object :
  reportCallee callee arguments = Some object -> List.length arguments = 1.
Proof.
  unfold reportCallee.
  destruct callee as [| | | | | |[o| | | | | | | |] [p| | | | | | | |] c| |];
    try discriminate.
  destruct (String.eqb (name p) "report"); [|discriminate].
  destruct (Nat.eqb (List.length arguments) 1) eqn:Hlen; [|discriminate].
  intros _. apply Nat.eqb_eq; assumption.
Qed.

Lemma reportCallee_reportCallOn ctx scope callee arguments object variable :
  reportCallee callee arguments = Some object ->
  findVariable scope object = Some variable ->
  definedBy ctx variable = true ->
  reportCallOn ctx scope callee = true.
Proof.
  unfold reportCallee, reportCallOn.
  destruct callee as [| | | | | |[o| | | | | | | |] [p| | | | | | | |] c| |];
    try discriminate.
  destruct (String.eqb (name p) "report"); [|discriminate].
  destruct (Nat.eqb (List.length arguments) 1); [|discriminate].
  intros H Hv Hd. inversion H; subst. rewrite Hv, Hd. reflexivity.
Qed.

(** C10.  A call of any callee that does not pass exactly one argument
    leaves the state of the rule as it is; and when every call [x.report]
    in which [x] resolves to the [context] parameter of a rule object of the
    file passes a number of arguments other than one, the file gets no
    diagnostic. *)
Theorem report_call_arity getPropertyName :
  (forall fuel scope st callee arguments,
      List.length arguments <> 1 ->
      on_CallExpression getPropertyName fuel scope st callee arguments = Some st) /\
  (forall visits exitScope,
      (forall ctx scope callee arguments,
          In (VisitCallExpression scope callee arguments) visits ->
          (exists properties rule,
              In (VisitObjectExpression properties) visits /\
              detectRuleObject getPropertyName properties = Some rule /\
              context rule = ctx) ->
          reportCallOn ctx scope callee = true ->
          List.length arguments <> 1) ->
      forall fuel, lint getPropertyName fuel visits exitScope = Some []).
Proof.
  split.
  - intros fuel scope st callee arguments Hlen. unfold on_CallExpression.
    destruct (ruleObject st) as [rule|]; [|reflexivity].
    destruct (reportCallee callee arguments) as [object|] eqn:Hcallee;
      [|reflexivity].
    apply reportCallee_arity in Hcallee. contradiction.
  - intros visits exitScope Hcalls fuel.
    set (Inv := fun st : RuleState =>
           reported st = [] /\
           (ruleObject st = None \/
            exists rule,
              ruleObject st = Some rule /\
              found (report rule) = false /\
              exists properties rule0,
                In (VisitObjectExpression properties) visits /\
                detectRuleObject getPropertyName properties = Some rule0 /\
                context rule0 = context rule)).
    assert (Hrun : forall suffix st,
               incl suffix visits -> Inv st ->
               exists st', traverse getPropertyName fuel st suffix = Some st' /\
                           Inv st').
    { induction suffix as [|v suffix IH]; intros st Hincl Hinv.
      - exists st. split; [reflexivity|assumption].
      - assert (Hin : In v visits) by (apply Hincl; left; reflexivity).
        assert (Hrest : incl suffix visits)
          by (intros x Hx; apply Hincl; right; assumption).
        assert (Hstep : exists st1, visit getPropertyName fuel st v = Some st1 /\
                                    Inv st1).
        { destruct v as [properties|scope callee arguments]; simpl.
          - eexists. split; [reflexivity|].
            unfold on_ObjectExpression.
            destruct Hinv as [Hrep [Hnone|[rule [Hrule Hfound]]]].
            + rewrite Hnone.
              destruct (detectRuleObject getPropertyName properties)
                as [rule|] eqn:Hdetect.
              * split; [assumption|]. right. exists rule.
                split; [reflexivity|]. split.
                -- apply detectRuleObject_shape in Hdetect.
                   destruct Hdetect as [? [? [? [? [? [? [_ [_ [_ Hr]]]]]]]]].
                   rewrite Hr. reflexivity.
                -- exists properties, rule. auto.
              * split; [assumption|left; assumption].
            + rewrite Hrule. split; [assumption|].
              right. exists rule. auto.
          - exists st. split; [|assumption].
            unfold on_CallExpression.
            destruct (ruleObject st) as [rule|] eqn:Hrule; [|reflexivity].
            destruct (reportCallee callee arguments) as [object|] eqn:Hcallee;
              [|reflexivity].
            destruct (findVariable scope object) as [variable|] eqn:Hvar;
              [|reflexivity].
            destruct (definedBy (context rule) variable) eqn:Hdef; [|reflexivity].
            exfalso.
            destruct Hinv as [_ [Hnone|[rule' [Hrule' [_ Hctx]]]]];
              [congruence|].
            assert (rule' = rule) by congruence. subst rule'.
            destruct Hctx as [properties [rule0 [Hp [Hd Hc]]]].
            apply (Hcalls (context rule) scope callee arguments Hin).
            + exists properties, rule0. auto.
            + eapply reportCallee_reportCallOn; eassumption.
            + eapply reportCallee_arity; eassumption. }
        destruct Hstep as [st1 [Hv Hinv1]].
        destruct (IH st1 Hrest Hinv1) as [st' [Ht Hinv']].
        exists st'. simpl. rewrite Hv. simpl. auto. }
    destruct (Hrun visits initialState (incl_refl _)) as [st [Ht [Hrep Hrule]]].
    { split; [reflexivity|left; reflexivity]. }
    unfold lint. rewrite Ht. simpl. unfold on_Program_exit.
    destruct Hrule as [Hnone|[rule [Hrule [Hfound _]]]].
    + rewrite Hnone. simpl. rewrite Hrep. reflexivity.
    + rewrite Hrule, Hfound. simpl. rewrite Hrep. reflexivity.
Qed.

(** [fileTwoArguments], in which the only report call passes two arguments,
    gets no diagnostic although [meta] declares [fixable: 'code']. *)
Lemma report_call_arity_witness :
  lint Samples.staticPropertyName 0 Samples.fileTwoArguments Samples.createScope
  = Some [].
Proof.
  apply (proj2 (report_call_arity Samples.staticPropertyName)).
  intros ctx scope callee arguments Hin _ Hreport.
  unfold Samples.fileTwoArguments, Samples.ruleFile, Samples.contextReport in Hin.
  simpl in Hin.
  repeat (destruct Hin as [Hin|Hin];
          [inversion Hin; subst;
           try (vm_compute in Hreport; discriminate); simpl; lia|]).
  contradiction.
Defined.

(** ** no-restricted-imports *)

(** C9.  For a declaration whose [source] is not a string literal, [verify]
    does nothing: no turn of the search among the restricted paths, no call
    of a pattern matcher, no call of the import-name generator, no report;
    and so does the visitor of the declaration. *)
Theorem verify_skips_non_literal_source
    (trim : string -> string)
    (restrictedPaths : list NoRestrictedImports.ParsedPathOption)
    (restrictedPatternGroups : list NoRestrictedImports.ParsedPatternGroup)
    (n : NoRestrictedImports.Declaration) :
  NoRestrictedImports.isStringLiteral (NoRestrictedImports.source n) = false ->
  (forall kind generateImportNames,
      NoRestrictedImports.verify trim restrictedPaths restrictedPatternGroups
        n kind generateImportNames = []) /\
  NoRestrictedImports.visitDeclaration trim restrictedPaths
    restrictedPatternGroups n = [] /\
  NoRestrictedImports.diagnostics
    (NoRestrictedImports.visitDeclaration trim restrictedPaths
       restrictedPatternGroups n) = [].
Proof.
  intros Hsource.
  assert (Hverify : forall kind generateImportNames,
             NoRestrictedImports.verify trim restrictedPaths
               restrictedPatternGroups n kind generateImportNames = []).
  { intros kind generateImportNames. unfold NoRestrictedImports.verify.
    rewrite Hsource. reflexivity. }
  assert (Hvisit : NoRestrictedImports.visitDeclaration trim restrictedPaths
                     restrictedPatternGroups n = []).
  { unfold NoRestrictedImports.visitDeclaration.
    destruct restrictedPaths, restrictedPatternGroups, n;
      try reflexivity; apply Hverify. }
  split; [assumption|]. split; [assumption|].
  rewrite Hvisit. reflexivity.
Qed.

(** [export { a }] has no source; with [foo] restricted it is skipped. *)
Lemma verify_skips_non_literal_source_witness :
  NoRestrictedImports.visitDeclaration Samples.trimSpaces Samples.restrictFoo []
    Samples.exportLocal = [].
Proof.
  apply (verify_skips_non_literal_source Samples.trimSpaces Samples.restrictFoo
           [] Samples.exportLocal).
  reflexivity.
Defined.

(** ** The end of the traversal *)

Lemma withMessage_app id ds1 ds2 :
  withMessage id (ds1 ++ ds2) = withMessage id ds1 ++ withMessage id ds2.
Proof. apply filter_app. Qed.

Lemma withMessage_reports id id' nodes :
  withMessage id (reports nodes id') =
  if MessageId_eqb id' id then reports nodes id' else [].
Proof.
  unfold withMessage, reports.
  induction nodes as [|n nodes IH]; simpl.
  - destruct (MessageId_eqb id' id); reflexivity.
  - rewrite IH. destruct (MessageId_eqb id' id); reflexivity.
Qed.

Lemma positive_reports nodes id :
  positive (reports nodes id) = if isPositive id then reports nodes id else [].
Proof.
  unfold positive, reports.
  induction nodes as [|n nodes IH]; simpl.
  - destruct (isPositive id); reflexivity.
  - rewrite IH. destruct (isPositive id); reflexivity.
Qed.

Lemma negative_reports nodes id :
  negative (reports nodes id) = if isPositive id then [] else reports nodes id.
Proof.
  unfold negative, reports.
  induction nodes as [|n nodes IH]; simpl.
  - destruct (isPositive id); reflexivity.
  - rewrite IH. destruct (isPositive id); reflexivity.
Qed.

Section Exit.

Variable getPropertyName : ObjectLiteralElement -> option string.

Lemma scanMeta_fold :
  forall props acc,
    fold_left (scanMeta getPropertyName) props acc =
    mkScan
      (match declaredProperty getPropertyName "fixable" props with
       | Some p => Some p
       | None => fixableProp acc
       end)
      (match declaredProperty getPropertyName "hasSuggestions" props with
       | Some p => Some p
       | None => hasSuggestionsProp acc
       end)
      (hasSpread acc || existsb isSpreadElement props).
Proof.
  induction props as [|prop props IH] using rev_ind; intros acc.
  - destruct acc; simpl. rewrite orb_false_r. reflexivity.
  - rewrite fold_left_app. simpl. rewrite IH.
    rewrite !declaredProperty_snoc, existsb_app. simpl.
    destruct prop as [key computed value|key computed value|argument]; simpl.
    + rewrite !orb_false_r.
      destruct (named getPropertyName "fixable" (Property key computed value))
        eqn:Hf;
        destruct (named getPropertyName "hasSuggestions"
                    (Property key computed value)) eqn:Hs;
        try reflexivity.
      pose proof (named_exclusive _ _ _ _ Hf Hs). discriminate.
    + rewrite !orb_false_r. reflexivity.
    + rewrite !orb_true_r. reflexivity.
Qed.

Lemma scanned_fixableProp props :
  fixableProp (scanned getPropertyName props) =
  declaredProperty getPropertyName "fixable" props.
Proof.
  unfold scanned. rewrite scanMeta_fold. simpl.
  destruct (declaredProperty getPropertyName "fixable" props); reflexivity.
Qed.

Lemma scanned_hasSuggestionsProp props :
  hasSuggestionsProp (scanned getPropertyName props) =
  declaredProperty getPropertyName "hasSuggestions" props.
Proof.
  unfold scanned. rewrite scanMeta_fold. simpl.
  destruct (declaredProperty getPropertyName "hasSuggestions" props);
    reflexivity.
Qed.

Lemma scanned_hasSpread props :
  hasSpread (scanned getPropertyName props) = existsb isSpreadElement props.
Proof.
  unfold scanned. rewrite scanMeta_fold. reflexivity.
Qed.

Lemma on_Program_exit_found fuel scope st rule props :
  ruleObject st = Some rule ->
  found (report rule) = true ->
  iterateProperties fuel scope (meta rule) = Some props ->
  on_Program_exit getPropertyName fuel scope st =
  Some (mkState (Some rule)
          (reported st
           ++ checkFixable (report rule) (scanned getPropertyName props)
           ++ checkSuggestable (report rule) (scanned getPropertyName props))).
Proof.
  intros Hrule Hfound Hprops. unfold on_Program_exit.
  rewrite Hrule, Hfound, Hprops. reflexivity.
Qed.

Lemma Lints_intro visits exitScope st st' fuel :
  Traverses getPropertyName initialState visits st ->
  on_Program_exit getPropertyName fuel exitScope st = Some st' ->
  Lints getPropertyName visits exitScope (reported st').
Proof.
  intros [f1 Ht] Hexit. exists (Nat.max f1 fuel). unfold lint.
  rewrite (traverse_mono getPropertyName f1 (Nat.max f1 fuel)
             ltac:(lia) _ _ _ Ht).
  simpl.
  rewrite (on_Program_exit_mono getPropertyName fuel (Nat.max f1 fuel)
             _ _ _ Hexit ltac:(lia)).
  reflexivity.
Qed.

Lemma checkSuggestable_not_fixable r m :
  withMessage shouldBeFixable (checkSuggestable r m) = [] /\
  withMessage shouldNotBeFixable (checkSuggestable r m) = [].
Proof.
  unfold checkSuggestable.
  repeat match goal with
         | |- context [match ?x with _ => _ end] => destruct x
         end;
    rewrite ?withMessage_reports; split; reflexivity.
Qed.

Lemma positive_checkFixable_hasUnknown s f fd m b b' :
  positive (checkFixable (mkReport s f b fd) m) =
  positive (checkFixable (mkReport s f b' fd) m).
Proof.
  unfold checkFixable; simpl.
  destruct f; [|reflexivity].
  destruct b, b'; try reflexivity;
    repeat match goal with
           | |- context [match ?x with _ => _ end] => destruct x
           end; reflexivity.
Qed.

Lemma positive_checkSuggestable_hasUnknown s f fd m b b' :
  positive (checkSuggestable (mkReport s f b fd) m) =
  positive (checkSuggestable (mkReport s f b' fd) m).
Proof.
  unfold checkSuggestable; simpl.
  destruct s; [|reflexivity].
  destruct b, b'; try reflexivity;
    repeat match goal with
           | |- context [match ?x with _ => _ end] => destruct x
           end; reflexivity.
Qed.

Lemma negative_checkFixable_unknown s f fd m :
  negative (checkFixable (mkReport s f true fd) m) = [].
Proof.
  unfold checkFixable; simpl.
  repeat match goal with
         | |- context [match ?x with _ => _ end] => destruct x
         end;
    rewrite ?negative_reports; reflexivity.
Qed.

Lemma negative_checkSuggestable_unknown s f fd m :
  negative (checkSuggestable (mkReport s f true fd) m) = [].
Proof.
  unfold checkSuggestable; simpl.
  repeat match goal with
         | |- context [match ?x with _ => _ end] => destruct x
         end;
    rewrite ?negative_reports; reflexivity.
Qed.

End Exit.

(** At [Program:exit], the [shouldBeFixable] and [shouldBeSuggestable]
    diagnostics are the same whether [hasUnknown] is set or not, and when it
    is set no [shouldNotBeFixable] or [shouldNotBeSuggestable] diagnostic is
    added. *)
Lemma exit_positive_independent_of_hasUnknown getPropertyName fuel scope rule ds :
  option_map (fun st => positive (reported st))
    (on_Program_exit getPropertyName fuel scope
       (mkState (Some (setHasUnknown true rule)) ds))
  = option_map (fun st => positive (reported st))
      (on_Program_exit getPropertyName fuel scope
         (mkState (Some (setHasUnknown false rule)) ds))
  /\
  (forall st',
      on_Program_exit getPropertyName fuel scope
        (mkState (Some (setHasUnknown true rule)) ds) = Some st' ->
      negative (reported st') = negative ds).
Proof.
  destruct rule as [m c [s f u fd]].
  unfold on_Program_exit, setHasUnknown; simpl.
  destruct fd; simpl; [|split; [reflexivity|]].
  - destruct (iterateProperties fuel scope m) as [props|]; simpl;
      [|split; [reflexivity|discriminate]].
    split.
    + unfold positive. rewrite !filter_app. fold positive.
      rewrite (positive_checkFixable_hasUnknown s f true _ true false).
      rewrite (positive_checkSuggestable_hasUnknown s f true _ true false).
      reflexivity.
    + intros st' H. inversion H; subst; simpl.
      unfold negative. rewrite !filter_app. fold negative.
      rewrite negative_checkFixable_unknown, negative_checkSuggestable_unknown.
      rewrite !app_nil_r. reflexivity.
  - intros st' H. inversion H; subst. reflexivity.
Qed.

(** ** The findings of the report calls *)

Section Findings.

Variable getPropertyName : ObjectLiteralElement -> option string.

Lemma collectDescriptor_fold :
  forall props r,
    fold_left (collectDescriptor getPropertyName) props r =
    mkReport (suggestNodes r ++ keysNamed getPropertyName "suggest" props)
             (fixNodes r ++ keysNamed getPropertyName "fix" props)
             (hasUnknown r || existsb (fun p => negb (isProperty p)) props)
             (found r).
Proof.
  induction props as [|prop props IH]; intros r; simpl.
  - rewrite !app_nil_r, orb_false_r. destruct r; reflexivity.
  - rewrite IH.
    destruct prop as [key computed value|key computed value|argument]; simpl.
    + destruct (named getPropertyName "suggest" (Property key computed value))
        eqn:Hs;
        destruct (named getPropertyName "fix" (Property key computed value))
          eqn:Hf; simpl.
      * pose proof (named_exclusive _ _ _ _ Hs Hf). discriminate.
      * rewrite <- app_assoc. reflexivity.
      * rewrite <- app_assoc. reflexivity.
      * reflexivity.
    + rewrite orb_true_r. reflexivity.
    + rewrite orb_true_r. reflexivity.
Qed.

Lemma reportCallOn_reportCallee ctx scope callee arguments :
  reportCallOn ctx scope callee = true ->
  List.length arguments = 1 ->
  exists object variable,
    reportCallee callee arguments = Some object /\
    findVariable scope object = Some variable /\
    definedBy ctx variable = true.
Proof.
  unfold reportCallOn, reportCallee. intros H Hlen.
  destruct callee as [| | | | | |[o| | | | | | | |] [p| | | | | | | |] c| |];
    try discriminate.
  apply andb_true_iff in H. destruct H as [Hname H].
  destruct (findVariable scope o) as [variable|] eqn:Hvar; [|discriminate].
  exists o, variable. rewrite Hname, Hlen. auto.
Qed.

Lemma on_CallExpression_descriptor fuel scope st rule callee descriptor props :
  ruleObject st = Some rule ->
  reportCallOn (context rule) scope callee = true ->
  iterateProperties fuel scope descriptor = Some props ->
  on_CallExpression getPropertyName fuel scope st callee
    [ObjectExpression descriptor]
  = Some (withReport st rule
            (mkReport
               (suggestNodes (report rule)
                ++ keysNamed getPropertyName "suggest" props)
               (fixNodes (report rule) ++ keysNamed getPropertyName "fix" props)
               (hasUnknown (report rule)
                || existsb (fun p => negb (isProperty p)) props)
               true)).
Proof.
  intros Hrule Hcall Hprops.
  destruct (reportCallOn_reportCallee _ _ _ [ObjectExpression descriptor]
              Hcall eq_refl) as [object [variable [Hc [Hv Hd]]]].
  unfold on_CallExpression. rewrite Hrule, Hc, Hv, Hd. cbv zeta.
  rewrite Hprops. simpl. rewrite collectDescriptor_fold. reflexivity.
Qed.

Lemma on_CallExpression_found fuel scope st callee arguments st' :
  on_CallExpression getPropertyName fuel scope st callee arguments = Some st' ->
  foundBeforeCollected st ->
  foundBeforeCollected st'.
Proof.
  unfold on_CallExpression. intros H Hinv.
  destruct (ruleObject st) as [rule|] eqn:Hrule;
    [|inversion H; subst; assumption].
  destruct (reportCallee callee arguments) as [object|];
    [|inversion H; subst; assumption].
  destruct (findVariable scope object) as [variable|];
    [|inversion H; subst; assumption].
  destruct (definedBy (context rule) variable);
    [|inversion H; subst; assumption].
  cbv zeta in H.
  assert (Hset : forall r, found r = true ->
                           Some (withReport st rule r) = Some st' ->
                           foundBeforeCollected st').
  { intros r Hr Heq. inversion Heq; subst.
    intros rule' Hrule' Hfound. simpl in Hrule'. inversion Hrule'; subst.
    simpl in Hfound. congruence. }
  destruct arguments as [|[] ?]; try (eapply Hset; [|exact H]; reflexivity).
  bind_inv H. eapply Hset; [|exact H].
  rewrite collectDescriptor_fold. reflexivity.
Qed.

Lemma traverse_found fuel :
  forall visits st st',
    traverse getPropertyName fuel st visits = Some st' ->
    foundBeforeCollected st ->
    foundBeforeCollected st'.
Proof.
  induction visits as [|v rest IH]; intros st st' H Hinv; simpl in H.
  - inversion H; subst; assumption.
  - bind_inv H. apply (IH _ _ H).
    destruct v; simpl in Hr.
    + inversion Hr; subst. unfold on_ObjectExpression.
      destruct (ruleObject st) eqn:Hrule; [assumption|].
      destruct (detectRuleObject getPropertyName properties) as [rule|] eqn:Hd;
        [|assumption].
      intros rule' Hrule' _. simpl in Hrule'. inversion Hrule'; subst.
      apply detectRuleObject_shape in Hd.
      destruct Hd as [? [? [? [? [? [? [_ [_ [_ Hempty]]]]]]]]].
      rewrite Hempty. auto.
    + eapply on_CallExpression_found; eassumption.
Qed.

Lemma initialState_found : foundBeforeCollected initialState.
Proof. intros rule H. discriminate. Qed.

End Findings.

(** ** The fixable checks *)

(** C1, as stated, fails when no report call is found: in
    [fileWithoutReport] the rule object is detected, no report site passes
    [fix], no report call has an unknown shape and [meta] declares
    [fixable: 'code'], and the file gets no diagnostic. *)
Lemma shouldNotBeFixable_needs_a_report_call :
  exists st rule,
    traverse Samples.staticPropertyName 1 initialState Samples.fileWithoutReport
    = Some st /\
    ruleObject st = Some rule /\
    fixNodes (report rule) = [] /\
    hasUnknown (report rule) = false /\
    Iterates Samples.createScope (meta rule) [Samples.fixableCode] /\
    declaredProperty Samples.staticPropertyName "fixable" [Samples.fixableCode]
    = Some (Samples.prop "fixable" (Literal (VString "code"))) /\
    forall ds,
      Lints Samples.staticPropertyName Samples.fileWithoutReport
        Samples.createScope ds ->
      ds = [].
Proof.
  eexists. eexists.
  split; [vm_compute; reflexivity|].
  split; [reflexivity|].
  split; [reflexivity|].
  split; [reflexivity|].
  split; [exists 1; reflexivity|].
  split; [reflexivity|].
  intros ds Hds.
  apply (Lints_functional Samples.staticPropertyName Samples.fileWithoutReport
           Samples.createScope); [assumption|].
  exists 1. vm_compute. reflexivity.
Qed.

(** C1, amended.  When a report call was found, no report site passes
    [fix], no report call has an unknown shape, and the [fixable] property
    that [meta] declares has a string literal as its value, the file gets
    exactly one [shouldNotBeFixable] diagnostic, on that property. *)
Theorem shouldNotBeFixable_reported
    getPropertyName visits exitScope st rule props key computed s :
  Traverses getPropertyName initialState visits st ->
  ruleObject st = Some rule ->
  found (report rule) = true ->
  fixNodes (report rule) = [] ->
  hasUnknown (report rule) = false ->
  Iterates exitScope (meta rule) props ->
  declaredProperty getPropertyName "fixable" props
  = Some (Property key computed (Literal (VString s))) ->
  exists ds,
    Lints getPropertyName visits exitScope ds /\
    withMessage shouldNotBeFixable ds
    = [mkDiagnostic (ElementNode (Property key computed (Literal (VString s))))
         shouldNotBeFixable].
Proof.
  intros Ht Hrule Hfound Hfix Hunknown [fuel Hprops] Hdeclared.
  pose proof (on_Program_exit_found getPropertyName _ _ _ _ _
                Hrule Hfound Hprops) as Hexit.
  eexists. split; [eapply Lints_intro; eassumption|].
  simpl. destruct Ht as [f Ht]. apply traverse_reported in Ht.
  rewrite Ht. simpl. rewrite withMessage_app.
  rewrite (proj2 (checkSuggestable_not_fixable _ _)), app_nil_r.
  unfold checkFixable.
  rewrite Hfix, Hunknown, scanned_fixableProp, Hdeclared. reflexivity.
Qed.

(** [fileNotFixable] gets one [shouldNotBeFixable], on [fixable: 'code']. *)
Lemma shouldNotBeFixable_reported_witness :
  exists ds,
    Lints Samples.staticPropertyName Samples.fileNotFixable Samples.createScope ds /\
    withMessage shouldNotBeFixable ds
    = [mkDiagnostic (ElementNode Samples.fixableCode) shouldNotBeFixable].
Proof.
  eapply (shouldNotBeFixable_reported Samples.staticPropertyName
            Samples.fileNotFixable Samples.createScope).
  - exists 1. vm_compute. reflexivity.
  - reflexivity.
  - reflexivity.
  - reflexivity.
  - reflexivity.
  - exists 1. reflexivity.
  - reflexivity.
Defined.

(** C3, amended.  When some report site passes [fix], [meta] yields no spread
    element
    and declares no [fixable] property or one whose value is the literal
    [null] or the identifier [undefined], the file gets one
    [shouldBeFixable] diagnostic for each collected [fix] key, on that key,
    in order; and a report call appends to the collected keys the keys of
    the [fix] properties its descriptor yields. *)
Theorem shouldBeFixable_reported getPropertyName :
  (forall visits exitScope st rule props,
      Traverses getPropertyName initialState visits st ->
      ruleObject st = Some rule ->
      fixNodes (report rule) <> [] ->
      Iterates exitScope (meta rule) props ->
      existsb isSpreadElement props = false ->
      (declaredProperty getPropertyName "fixable" props = None \/
       exists key computed value,
         declaredProperty getPropertyName "fixable" props
         = Some (Property key computed value) /\
         (value = Literal VNull \/
          exists id, value = Identifier id /\ name id = "undefined")) ->
      exists ds,
        Lints getPropertyName visits exitScope ds /\
        withMessage shouldBeFixable ds
        = map (fun key => mkDiagnostic (KeyNode key) shouldBeFixable)
              (fixNodes (report rule))) /\
  (forall fuel scope st rule callee descriptor props,
      ruleObject st = Some rule ->
      reportCallOn (context rule) scope callee = true ->
      iterateProperties fuel scope descriptor = Some props ->
      exists rule',
        on_CallExpression getPropertyName fuel scope st callee
          [ObjectExpression descriptor]
        = Some (mkState (Some rule') (reported st)) /\
        meta rule' = meta rule /\
        context rule' = context rule /\
        fixNodes (report rule')
        = fixNodes (report rule) ++ keysNamed getPropertyName "fix" props).
Proof.
  split.
  - intros visits exitScope st rule props Ht Hrule Hfix [fuel Hprops]
           Hspread Hdeclared.
    assert (Hfound : found (report rule) = true).
    { destruct (found (report rule)) eqn:Hfound; [reflexivity|].
      destruct Ht as [f Ht].
      destruct (traverse_found getPropertyName _ _ _ _ Ht initialState_found
                  rule Hrule Hfound) as [Hnil _].
      contradiction. }
    pose proof (on_Program_exit_found getPropertyName _ _ _ _ _
                  Hrule Hfound Hprops) as Hexit.
    eexists. split; [eapply Lints_intro; eassumption|].
    simpl. destruct Ht as [f Ht]. apply traverse_reported in Ht.
    rewrite Ht. simpl. rewrite withMessage_app.
    rewrite (proj1 (checkSuggestable_not_fixable _ _)), app_nil_r.
    unfold checkFixable.
    rewrite scanned_hasSpread, Hspread, scanned_fixableProp.
    destruct (fixNodes (report rule)) as [|key0 keys] eqn:Hkeys;
      [contradiction|].
    destruct Hdeclared as [->|[key [computed [value [-> Hvalue]]]]].
    + rewrite withMessage_reports. reflexivity.
    + destruct Hvalue as [->|[id [-> Hname]]].
      * rewrite withMessage_reports. reflexivity.
      * rewrite Hname. simpl String.eqb. cbv iota.
        rewrite withMessage_reports. reflexivity.
  - intros fuel scope st rule callee descriptor props Hrule Hcall Hprops.
    rewrite (on_CallExpression_descriptor getPropertyName _ _ _ _ _ _ _
               Hrule Hcall Hprops).
    eexists. split; [reflexivity|]. simpl. auto.
Qed.

(** [fileFix] gets one [shouldBeFixable], on the key of [fix() {}]. *)
Lemma shouldBeFixable_reported_witness :
  exists ds,
    Lints Samples.staticPropertyName Samples.fileFix Samples.createScope ds /\
    withMessage shouldBeFixable ds
    = [mkDiagnostic (KeyNode (Samples.ident "fix" 14)) shouldBeFixable].
Proof.
  apply (proj1 (shouldBeFixable_reported Samples.staticPropertyName)
           Samples.fileFix Samples.createScope
           (mkState
              (Some (mkRuleObject [] Samples.contextParam
                       (mkReport [] [Samples.ident "fix" 14] false true))) [])
           (mkRuleObject [] Samples.contextParam
              (mkReport [] [Samples.ident "fix" 14] false true))
           []).
  - exists 1. vm_compute. reflexivity.
  - reflexivity.
  - discriminate.
  - exists 1. reflexivity.
  - reflexivity.
  - left. reflexivity.
Defined.

(** ** A spread in [meta] *)

Lemma walkShapes_no_object walk :
  forall shapes,
    (forall e, In e shapes -> isObjectExpression e = false) ->
    walkShapes walk shapes = Some [].
Proof.
  induction shapes as [|e shapes IH]; intros Hall; [reflexivity|].
  pose proof (Hall e (or_introl eq_refl)) as He.
  destruct e; try discriminate; simpl; apply IH;
    intros x Hx; apply Hall; right; assumption.
Qed.

Lemma checks_without_declaration r :
  checkFixable r (mkScan None None true) = [] /\
  checkSuggestable r (mkScan None None true) = [].
Proof.
  unfold checkFixable, checkSuggestable; simpl.
  destruct (fixNodes r), (suggestNodes r), (hasUnknown r); split; reflexivity.
Qed.

(** C5, as stated, fails when the spread is resolved: with
    [const ruleMeta = { fixable: 'code' }] in scope, [meta: { ...ruleMeta }]
    and a report call without [fix], the file gets [shouldNotBeFixable]. *)
Lemma resolved_meta_spread_is_checked :
  exists st rule,
    traverse Samples.staticPropertyName 1 initialState
      (Samples.fileSpread Samples.fileScope []) = Some st /\
    ruleObject st = Some rule /\
    meta rule = [SpreadElement (Samples.ident "ruleMeta" 20)] /\
    forall ds,
      Lints Samples.staticPropertyName (Samples.fileSpread Samples.fileScope [])
        Samples.fileScope ds ->
      ds = [mkDiagnostic (ElementNode Samples.fixableCode) shouldNotBeFixable].
Proof.
  eexists. eexists.
  split; [vm_compute; reflexivity|].
  split; [reflexivity|].
  split; [reflexivity|].
  intros ds Hds.
  apply (Lints_functional Samples.staticPropertyName
           (Samples.fileSpread Samples.fileScope []) Samples.fileScope);
    [assumption|].
  exists 3. vm_compute. reflexivity.
Qed.

(** C5, amended.  When [meta] is an object with a single spread element and
    no expression in the flattening of its argument is an object expression
    (as for an identifier that is not bound by a single initialised
    [const]), the file gets no diagnostic, whatever the report calls
    pass. *)
Theorem unresolved_meta_spread_suppresses
    getPropertyName visits exitScope st rule argument shapes :
  Traverses getPropertyName initialState visits st ->
  ruleObject st = Some rule ->
  meta rule = [SpreadElement argument] ->
  Flattens exitScope argument shapes ->
  (forall e, In e shapes -> isObjectExpression e = false) ->
  Lints getPropertyName visits exitScope [].
Proof.
  intros Ht Hrule Hmeta [fuel Hflat] Hshapes.
  assert (Hreported : reported st = []).
  { destruct Ht as [f Ht]. apply traverse_reported in Ht. assumption. }
  destruct (found (report rule)) eqn:Hfound.
  - assert (Hprops : iterateProperties (S fuel) exitScope (meta rule)
                     = Some [SpreadElement argument]).
    { rewrite Hmeta. simpl. rewrite Hflat. simpl.
      rewrite (walkShapes_no_object _ _ Hshapes). simpl.
      assert (Hunknown : hasUnknownShape shapes = true).
      { apply hasUnknownShape_true.
        destruct shapes as [|e shapes'].
        - exfalso. eapply flattenExpressions_nonempty; [exact Hflat|reflexivity].
        - exists e. split; [left; reflexivity|].
          apply Hshapes. left; reflexivity. }
      rewrite Hunknown. reflexivity. }
    pose proof (on_Program_exit_found getPropertyName _ _ _ _ _
                  Hrule Hfound Hprops) as Hexit.
    pose proof (Lints_intro getPropertyName _ _ _ _ _ Ht Hexit) as Hlints.
    simpl in Hlints. rewrite Hreported in Hlints.
    unfold scanned in Hlints. simpl in Hlints.
    rewrite (proj1 (checks_without_declaration _)) in Hlints.
    rewrite (proj2 (checks_without_declaration _)) in Hlints.
    exact Hlints.
  - assert (Hexit : on_Program_exit getPropertyName 0 exitScope st = Some st).
    { unfold on_Program_exit. rewrite Hrule, Hfound. reflexivity. }
    pose proof (Lints_intro getPropertyName _ _ _ _ _ Ht Hexit) as Hlints.
    rewrite Hreported in Hlints. exact Hlints.
Qed.

(** With [ruleMeta] not declared, [meta: { ...ruleMeta }] and a report call
    that passes [fix] and [suggest], the file gets no diagnostic. *)
Lemma unresolved_meta_spread_suppresses_witness :
  Lints Samples.staticPropertyName
    (Samples.fileSpread Samples.createScope
       [Samples.fixMethod; Samples.suggestProperty])
    Samples.createScope [].
Proof.
  eapply (unresolved_meta_spread_suppresses Samples.staticPropertyName
            (Samples.fileSpread Samples.createScope
               [Samples.fixMethod; Samples.suggestProperty])
            Samples.createScope).
  - exists 1. vm_compute. reflexivity.
  - reflexivity.
  - reflexivity.
  - exists 1. reflexivity.
  - intros e [<-|[]]. reflexivity.
Defined.

(** ** Further properties of the generators *)

Lemma flattenExpressions_flattenedForm scope :
  forall fuel node l,
    flattenExpressions fuel scope node = Some l ->
    forall e, In e l -> flattenedForm scope e = true.
Proof.
  induction fuel as [|fuel IH]; intros node l H e Hin; [discriminate|].
  simpl in H.
  destruct node;
    try (inversion H; subst; destruct Hin as [<-|[]]; reflexivity).
  - destruct (constInitializer (findVariable scope id)) as [init|] eqn:Hc.
    + eapply IH; eassumption.
    + inversion H; subst. destruct Hin as [<-|[]]. simpl. rewrite Hc.
      reflexivity.
  - bind_inv H. bind_inv H. inversion H; subst.
    apply in_app_or in Hin. destruct Hin as [Hin|Hin].
    + exact (IH _ _ Hr _ Hin).
    + exact (IH _ _ Hr0 _ Hin).
Qed.

(** X1.  What [flattenExpressions] yields is fully flattened: no yielded
    expression is a conditional expression or an identifier bound by a
    single initialised [const], and flattening a yielded expression again
    yields that expression alone. *)
Theorem flattenExpressions_yields_flattened scope node l e :
  Flattens scope node l ->
  In e l ->
  (forall test consequent alternate,
      e <> ConditionalExpression test consequent alternate) /\
  (forall id init, e = Identifier id -> ~ resolvesToConst scope id init) /\
  Flattens scope e [e].
Proof.
  intros [fuel H] Hin.
  pose proof (flattenExpressions_flattenedForm _ _ _ _ H _ Hin) as Hform.
  split; [|split].
  - intros test consequent alternate ->. discriminate.
  - intros id init -> Hr. apply resolvesToConst_iff in Hr.
    simpl in Hform. rewrite Hr in Hform. discriminate.
  - exists 1. destruct e; try reflexivity; simpl in *.
    + destruct (constInitializer (findVariable scope id)); [discriminate|].
      reflexivity.
    + discriminate.
Qed.

Lemma flattenExpressions_yields_flattened_witness :
  Flattens Samples.fileScope (Samples.ident "other" 6) [Samples.ident "other" 6].
Proof.
  apply (flattenExpressions_yields_flattened Samples.fileScope
           (Samples.ident "base" 0)
           [Samples.ruleMetaInit; Samples.ident "other" 6]
           (Samples.ident "other" 6)).
  - exists 4. reflexivity.
  - right. left. reflexivity.
Defined.

Lemma walkElements_without_spread flatten walk :
  forall props,
    forallb (fun p => negb (isSpreadElement p)) props = true ->
    walkElements flatten walk props = Some props.
Proof.
  induction props as [|p props IH]; intros H; [reflexivity|].
  simpl in H. apply andb_true_iff in H. destruct H as [Hp Hrest].
  destruct p; try discriminate; simpl; rewrite (IH Hrest); reflexivity.
Qed.

(** X2.  An object expression without spread elements yields its own
    properties, in order, whatever the scope, as soon as one call is
    allowed. *)
Theorem iterateProperties_without_spread fuel scope props :
  forallb (fun p => negb (isSpreadElement p)) props = true ->
  iterateProperties (S fuel) scope props = Some props.
Proof.
  intros H. simpl. apply walkElements_without_spread. assumption.
Qed.

Lemma iterateProperties_without_spread_witness :
  iterateProperties 1 Samples.fileScope
    [Samples.fixableCode; Samples.fixMethod]
  = Some [Samples.fixableCode; Samples.fixMethod].
Proof.
  apply iterateProperties_without_spread. reflexivity.
Defined.

Lemma walkShapes_Forall (P : ObjectLiteralElement -> Prop) walk :
  (forall ps l, walk ps = Some l -> Forall P l) ->
  forall shapes inner, walkShapes walk shapes = Some inner -> Forall P inner.
Proof.
  intros Hwalk. induction shapes as [|e shapes IH]; intros inner H; simpl in H.
  - inversion H. constructor.
  - destruct e; try (apply IH; assumption).
    bind_inv H. bind_inv H. inversion H; subst.
    apply Forall_app. split; [eapply Hwalk; eassumption|apply IH; assumption].
Qed.

Lemma iterateProperties_unresolved_spreads scope :
  forall fuel props l,
    iterateProperties fuel scope props = Some l ->
    Forall (unresolvedIfSpread scope) l.
Proof.
  induction fuel as [|fuel IH]; intros props l H; [discriminate|].
  simpl in H. revert l H.
  induction props as [|p props IHprops]; intros l H; simpl in H.
  - inversion H. constructor.
  - destruct p as [key computed value|key computed value|argument].
    + bind_inv H. inversion H; subst. constructor; [exact I|auto].
    + bind_inv H. inversion H; subst. constructor; [exact I|auto].
    + bind_inv H. bind_inv H. bind_inv H. inversion H; subst.
      apply Forall_app. split.
      * eapply walkShapes_Forall; [|eassumption]. intros ps l' Hl'.
        eapply IH; eassumption.
      * apply Forall_app. split; [|auto].
        destruct (hasUnknownShape r) eqn:Hu; [|constructor].
        constructor; [|constructor]. simpl. exists r.
        split; [exists fuel; assumption|].
        apply hasUnknownShape_true; assumption.
Qed.

(** X3.  A spread element is yielded by [iterateProperties] only when it is
    unresolved: the flattening of its argument contains an expression that
    is not an object expression. *)
Theorem iterateProperties_yields_only_unresolved_spreads
    scope props l argument :
  Iterates scope props l ->
  In (SpreadElement argument) l ->
  exists shapes,
    Flattens scope argument shapes /\
    exists e, In e shapes /\ isObjectExpression e = false.
Proof.
  intros [fuel H] Hin.
  pose proof (iterateProperties_unresolved_spreads _ _ _ _ H) as Hall.
  rewrite Forall_forall in Hall. exact (Hall _ Hin).
Qed.

Lemma iterateProperties_yields_only_unresolved_spreads_witness :
  exists shapes,
    Flattens Samples.fileScope (Samples.ident "base" 0) shapes /\
    exists e, In e shapes /\ isObjectExpression e = false.
Proof.
  apply (iterateProperties_yields_only_unresolved_spreads Samples.fileScope
           [SpreadElement (Samples.ident "base" 0)]
           [Samples.fixableCode; SpreadElement (Samples.ident "base" 0)]).
  - exists 5. reflexivity.
  - right. left. reflexivity.
Defined.

Lemma boundedResolution_mono scope :
  forall depth depth' e,
    boundedResolution depth scope e = true ->
    depth <= depth' ->
    boundedResolution depth' scope e = true.
Proof.
  induction depth as [|depth IH]; intros depth' e H Hle; [discriminate|].
  destruct depth' as [|depth']; [lia|].
  assert (Hle' : depth <= depth') by lia.
  simpl in *. destruct e; try reflexivity.
  - destruct (constInitializer (findVariable scope id)); eauto.
  - apply andb_true_iff in H. destruct H as [H1 H2].
    rewrite (IH _ _ H1 Hle'), (IH _ _ H2 Hle'). reflexivity.
  - rewrite forallb_forall in *. intros p Hp. specialize (H p Hp).
    destruct p; eauto.
Qed.

Lemma flattenExpressions_bounded scope :
  forall depth e,
    boundedResolution depth scope e = true ->
    exists l,
      flattenExpressions depth scope e = Some l /\
      Forall (fun x => boundedResolution depth scope x = true) l.
Proof.
  induction depth as [|depth IH]; intros e H; [discriminate|].
  assert (Hself : exists l,
             Some [e] = Some l /\
             Forall (fun x => boundedResolution (S depth) scope x = true) l).
  { exists [e]. split; [reflexivity|]. constructor; [assumption|constructor]. }
  assert (Hup : forall l,
             Forall (fun x => boundedResolution depth scope x = true) l ->
             Forall (fun x => boundedResolution (S depth) scope x = true) l).
  { intros l Hl. eapply Forall_impl; [|exact Hl].
    intros x Hx. eapply boundedResolution_mono; [exact Hx|lia]. }
  destruct e; try exact Hself.
  - simpl in H |- *.
    destruct (constInitializer (findVariable scope id)) as [init|] eqn:Hc.
    + destruct (IH _ H) as [l [Hl Hall]]. exists l. auto.
    + exists [Identifier id]. split; [reflexivity|].
      constructor; [|constructor]. simpl. rewrite Hc. reflexivity.
  - simpl in H. apply andb_true_iff in H. destruct H as [H1 H2].
    destruct (IH _ H1) as [l1 [Hl1 Hall1]].
    destruct (IH _ H2) as [l2 [Hl2 Hall2]].
    exists (l1 ++ l2). simpl. rewrite Hl1, Hl2. split; [reflexivity|].
    apply Forall_app. auto.
Qed.

Lemma iterateProperties_bounded scope :
  forall depth props,
    boundedResolution depth scope (ObjectExpression props) = true ->
    exists l, iterateProperties depth scope props = Some l.
Proof.
  induction depth as [|depth IH]; intros props H; [discriminate|].
  simpl in H |- *. rewrite forallb_forall in H.
  induction props as [|p props IHprops].
  - exists []. reflexivity.
  - destruct IHprops as [others Hothers].
    { intros x Hx. apply H. right; assumption. }
    pose proof (H p (or_introl eq_refl)) as Hp.
    destruct p as [key computed value|key computed value|argument]; simpl.
    + rewrite Hothers. eexists; reflexivity.
    + rewrite Hothers. eexists; reflexivity.
    + destruct (flattenExpressions_bounded scope _ _ Hp) as [shapes [Hs Hall]].
      rewrite Hs. simpl.
      assert (Hwalk : exists inner,
                 walkShapes (iterateProperties depth scope) shapes = Some inner).
      { clear Hs. induction shapes as [|e shapes IHshapes].
        - exists []. reflexivity.
        - inversion Hall as [|e' shapes' He Hrest]; subst.
          destruct (IHshapes Hrest) as [rest Hrest'].
          destruct e; simpl; try (exists rest; assumption).
          destruct (IH _ He) as [inner Hinner].
          rewrite Hinner, Hrest'. eexists; reflexivity. }
      destruct Hwalk as [inner Hinner].
      rewrite Hinner, Hothers. eexists; reflexivity.
Qed.

(** X4.  When every chain of resolution steps from an expression has fewer
    than [depth] steps, [flattenExpressions] returns within that depth of
    calls, and so does [iterateProperties] on an object expression. *)
Theorem generators_return_within_resolution_depth depth scope e :
  boundedResolution depth scope e = true ->
  (exists l, flattenExpressions depth scope e = Some l) /\
  (forall props,
      e = ObjectExpression props ->
      exists l, iterateProperties depth scope props = Some l).
Proof.
  intros H. split.
  - destruct (flattenExpressions_bounded scope _ _ H) as [l [Hl _]].
    exists l. exact Hl.
  - intros props ->. apply iterateProperties_bounded. assumption.
Qed.

Lemma generators_return_within_resolution_depth_witness :
  exists l,
    iterateProperties 5 Samples.fileScope
      [SpreadElement (Samples.ident "base" 0)] = Some l.
Proof.
  destruct (generators_return_within_resolution_depth 5 Samples.fileScope
              (ObjectExpression [SpreadElement (Samples.ident "base" 0)]))
    as [_ Hwalk].
  - vm_compute. reflexivity.
  - exact (Hwalk _ eq_refl).
Defined.

(** ** Further properties of the rule *)

Section RuleProperties.

Variable getPropertyName : ObjectLiteralElement -> option string.

Lemma visit_without_rule fuel st v :
  ruleObject st = None ->
  createsNoRule getPropertyName v ->
  visit getPropertyName fuel st v = Some st.
Proof.
  intros Hnone Hv. destruct v as [properties|scope callee arguments]; simpl in *.
  - unfold on_ObjectExpression. rewrite Hnone, Hv. reflexivity.
  - unfold on_CallExpression. rewrite Hnone. reflexivity.
Qed.

Lemma traverse_prefix_without_rule fuel st :
  ruleObject st = None ->
  forall before rest,
    Forall (createsNoRule getPropertyName) before ->
    traverse getPropertyName fuel st (before ++ rest)
    = traverse getPropertyName fuel st rest.
Proof.
  intros Hnone. induction before as [|v before IH]; intros rest Hall;
    [reflexivity|].
  inversion Hall as [|v' before' Hv Hrest]; subst. simpl.
  rewrite (visit_without_rule _ _ _ Hnone Hv). simpl. apply IH. assumption.
Qed.

(** What a run that returns has reported. *)
Lemma lint_inv fuel visits exitScope ds :
  lint getPropertyName fuel visits exitScope = Some ds ->
  exists st,
    traverse getPropertyName fuel initialState visits = Some st /\
    ((ds = [] /\
      (ruleObject st = None \/
       exists rule, ruleObject st = Some rule /\ found (report rule) = false)) \/
     exists rule props,
       ruleObject st = Some rule /\
       found (report rule) = true /\
       iterateProperties fuel exitScope (meta rule) = Some props /\
       ds = checkFixable (report rule) (scanned getPropertyName props)
            ++ checkSuggestable (report rule) (scanned getPropertyName props)).
Proof.
  unfold lint. intros H. bind_inv H. bind_inv H. inversion H; subst.
  exists r. split; [assumption|].
  pose proof (traverse_reported _ _ _ _ _ Hr) as Hrep. simpl in Hrep.
  unfold on_Program_exit in Hr0.
  destruct (ruleObject r) as [rule|] eqn:Hrule.
  - destruct (found (report rule)) eqn:Hfound; simpl in Hr0.
    + bind_inv Hr0. inversion Hr0; subst. simpl. rewrite Hrep. simpl.
      right. exists rule, r1. auto.
    + inversion Hr0; subst. left. split; [assumption|].
      right. exists rule. auto.
  - inversion Hr0; subst. left. auto.
Qed.

Lemma checkFixable_not_suggestable r m :
  withMessage shouldBeSuggestable (checkFixable r m) = [] /\
  withMessage shouldNotBeSuggestable (checkFixable r m) = [].
Proof.
  unfold checkFixable.
  repeat match goal with
         | |- context [match ?x with _ => _ end] => destruct x
         end;
    rewrite ?withMessage_reports; split; reflexivity.
Qed.

Lemma checkFixable_exclusive r m :
  withMessage shouldBeFixable (checkFixable r m) = [] \/
  withMessage shouldNotBeFixable (checkFixable r m) = [].
Proof.
  unfold checkFixable.
  repeat match goal with
         | |- context [match ?x with _ => _ end] => destruct x
         end;
    rewrite ?withMessage_reports; auto.
Qed.

Lemma checkSuggestable_exclusive r m :
  withMessage shouldBeSuggestable (checkSuggestable r m) = [] \/
  withMessage shouldNotBeSuggestable (checkSuggestable r m) = [].
Proof.
  unfold checkSuggestable.
  repeat match goal with
         | |- context [match ?x with _ => _ end] => destruct x
         end;
    rewrite ?withMessage_reports; auto.
Qed.

Lemma checkFixable_one_negative r m :
  List.length (withMessage shouldNotBeFixable (checkFixable r m)) <= 1.
Proof.
  unfold checkFixable.
  repeat match goal with
         | |- context [match ?x with _ => _ end] => destruct x
         end;
    rewrite ?withMessage_reports; simpl; lia.
Qed.

Lemma checkSuggestable_one_negative r m :
  List.length (withMessage shouldNotBeSuggestable (checkSuggestable r m)) <= 1.
Proof.
  unfold checkSuggestable.
  repeat match goal with
         | |- context [match ?x with _ => _ end] => destruct x
         end;
    rewrite ?withMessage_reports; simpl; lia.
Qed.

Lemma positive_with_spread r m :
  hasSpread m = true ->
  positive (checkFixable r m) = [] /\ positive (checkSuggestable r m) = [].
Proof.
  intros Hspread. unfold checkFixable, checkSuggestable. rewrite Hspread.
  split;
    repeat match goal with
           | |- context [match ?x with _ => _ end] => destruct x
           end; reflexivity.
Qed.

(** Along a traversal the collected nodes only grow and the two flags are
    never reset. *)
Lemma on_CallExpression_grows fuel scope st callee arguments st' rule :
  on_CallExpression getPropertyName fuel scope st callee arguments = Some st' ->
  ruleObject st = Some rule ->
  exists rule',
    ruleObject st' = Some rule' /\
    meta rule' = meta rule /\
    context rule' = context rule /\
    (exists extra,
        fixNodes (report rule') = fixNodes (report rule) ++ extra) /\
    (exists extra,
        suggestNodes (report rule') = suggestNodes (report rule) ++ extra) /\
    (hasUnknown (report rule) = true -> hasUnknown (report rule') = true) /\
    (found (report rule) = true -> found (report rule') = true).
Proof.
  unfold on_CallExpression. intros H Hrule. rewrite Hrule in H.
  assert (Hsame : Some st = Some st' ->
                  exists rule',
                    ruleObject st' = Some rule' /\
                    meta rule' = meta rule /\
                    context rule' = context rule /\
                    (exists extra,
                        fixNodes (report rule') = fixNodes (report rule) ++ extra) /\
                    (exists extra,
                        suggestNodes (report rule')
                        = suggestNodes (report rule) ++ extra) /\
                    (hasUnknown (report rule) = true ->
                     hasUnknown (report rule') = true) /\
                    (found (report rule) = true -> found (report rule') = true)).
  { intros Heq. inversion Heq; subst. exists rule.
    repeat split; auto; exists []; rewrite app_nil_r; reflexivity. }
  destruct (reportCallee callee arguments) as [object|]; [|auto].
  destruct (findVariable scope object) as [variable|]; [|auto].
  destruct (definedBy (context rule) variable); [|auto].
  cbv zeta in H.
  assert (Hflag : Some (withReport st rule
                          (mkReport (suggestNodes (report rule))
                             (fixNodes (report rule)) true true)) = Some st' ->
                  exists rule',
                    ruleObject st' = Some rule' /\
                    meta rule' = meta rule /\
                    context rule' = context rule /\
                    (exists extra,
                        fixNodes (report rule') = fixNodes (report rule) ++ extra) /\
                    (exists extra,
                        suggestNodes (report rule')
                        = suggestNodes (report rule) ++ extra) /\
                    (hasUnknown (report rule) = true ->
                     hasUnknown (report rule') = true) /\
                    (found (report rule) = true -> found (report rule') = true)).
  { intros Heq. inversion Heq; subst. eexists. simpl.
    repeat split; auto; exists []; rewrite app_nil_r; reflexivity. }
  destruct arguments as [|[] ?]; try (apply Hflag; exact H).
  bind_inv H. rewrite collectDescriptor_fold in H. simpl in H.
  inversion H; subst. eexists. simpl.
  split; [reflexivity|]. split; [reflexivity|]. split; [reflexivity|].
  split; [eexists; reflexivity|]. split; [eexists; reflexivity|].
  split; [intros ->; reflexivity|reflexivity].
Qed.

End RuleProperties.

Lemma positive_app ds1 ds2 : positive (ds1 ++ ds2) = positive ds1 ++ positive ds2.
Proof. apply filter_app. Qed.

Lemma negative_app ds1 ds2 : negative (ds1 ++ ds2) = negative ds1 ++ negative ds2.
Proof. apply filter_app. Qed.

Lemma Traverses_functional getPropertyName st visits st1 st2 :
  Traverses getPropertyName st visits st1 ->
  Traverses getPropertyName st visits st2 ->
  st1 = st2.
Proof.
  intros [f1 H1] [f2 H2].
  apply (traverse_mono getPropertyName f1 (Nat.max f1 f2) ltac:(lia)) in H1.
  apply (traverse_mono getPropertyName f2 (Nat.max f1 f2) ltac:(lia)) in H2.
  congruence.
Qed.

Lemma Lints_inv getPropertyName visits exitScope st rule props ds :
  Traverses getPropertyName initialState visits st ->
  ruleObject st = Some rule ->
  Iterates exitScope (meta rule) props ->
  Lints getPropertyName visits exitScope ds ->
  ds = [] \/
  (found (report rule) = true /\
   ds = checkFixable (report rule) (scanned getPropertyName props)
        ++ checkSuggestable (report rule) (scanned getPropertyName props)).
Proof.
  intros Ht Hrule Hprops [fuel Hds].
  apply lint_inv in Hds. destruct Hds as [st2 [Ht2 Hcases]].
  assert (st2 = st)
    by (eapply Traverses_functional; [exists fuel; exact Ht2|exact Ht]).
  subst st2.
  destruct Hcases as [[-> _]|[rule2 [props2 [Hrule2 [Hfound [Hprops2 ->]]]]]];
    [left; reflexivity|].
  assert (rule2 = rule) by congruence. subst rule2.
  assert (props2 = props)
    by (eapply Iterates_functional; [exists fuel; exact Hprops2|exact Hprops]).
  subst props2. right. auto.
Qed.

(** X5.  Whatever is visited before the first object expression of the
    shape of a rule is ignored, report calls included: the file gets the
    diagnostics of the rest of the traversal. *)
Theorem visits_before_rule_object_are_ignored
    getPropertyName fuel before rest exitScope :
  Forall (createsNoRule getPropertyName) before ->
  lint getPropertyName fuel (before ++ rest) exitScope
  = lint getPropertyName fuel rest exitScope.
Proof.
  intros Hbefore. unfold lint.
  rewrite (traverse_prefix_without_rule getPropertyName fuel initialState
             eq_refl before rest Hbefore).
  reflexivity.
Qed.

Lemma visits_before_rule_object_are_ignored_witness :
  lint Samples.staticPropertyName 1
    ([Samples.contextReport Samples.createScope
        [Samples.descriptor [Samples.fixMethod]]]
     ++ Samples.fileNotFixable) Samples.createScope
  = lint Samples.staticPropertyName 1 Samples.fileNotFixable Samples.createScope.
Proof.
  apply visits_before_rule_object_are_ignored.
  constructor; [exact I|constructor].
Defined.

(** X6.  A file in which no object expression has the shape of a rule gets
    no diagnostic, whatever its calls and whatever the depth allowed. *)
Theorem no_rule_object_no_diagnostic getPropertyName fuel visits exitScope :
  Forall (createsNoRule getPropertyName) visits ->
  lint getPropertyName fuel visits exitScope = Some [].
Proof.
  intros Hall.
  rewrite <- (app_nil_r visits).
  unfold lint.
  rewrite (traverse_prefix_without_rule getPropertyName fuel initialState
             eq_refl visits [] Hall).
  reflexivity.
Qed.

Lemma no_rule_object_no_diagnostic_witness :
  lint Samples.staticPropertyName 0
    [VisitObjectExpression [Samples.fixableCode];
     Samples.contextReport Samples.createScope
       [Samples.descriptor [Samples.fixMethod]]]
    Samples.createScope
  = Some [].
Proof.
  apply no_rule_object_no_diagnostic.
  constructor; [reflexivity|]. constructor; [exact I|constructor].
Defined.

(** X7.  A file never gets both [shouldBeFixable] and [shouldNotBeFixable],
    nor both [shouldBeSuggestable] and [shouldNotBeSuggestable], and it gets
    at most one [shouldNotBeFixable] and one [shouldNotBeSuggestable]. *)
Theorem opposite_diagnostics_exclude_each_other
    getPropertyName visits exitScope ds :
  Lints getPropertyName visits exitScope ds ->
  (withMessage shouldBeFixable ds = [] \/
   withMessage shouldNotBeFixable ds = []) /\
  (withMessage shouldBeSuggestable ds = [] \/
   withMessage shouldNotBeSuggestable ds = []) /\
  List.length (withMessage shouldNotBeFixable ds) <= 1 /\
  List.length (withMessage shouldNotBeSuggestable ds) <= 1.
Proof.
  intros [fuel H]. apply lint_inv in H.
  destruct H as [st [_ [[-> _]|[rule [props [_ [_ [_ ->]]]]]]]].
  - simpl. auto.
  - rewrite !withMessage_app.
    rewrite (proj1 (checkSuggestable_not_fixable _ _)).
    rewrite (proj2 (checkSuggestable_not_fixable _ _)).
    rewrite (proj1 (checkFixable_not_suggestable _ _)).
    rewrite (proj2 (checkFixable_not_suggestable _ _)).
    rewrite !app_nil_r. simpl.
    split; [apply checkFixable_exclusive|].
    split; [apply checkSuggestable_exclusive|].
    split; [apply checkFixable_one_negative|apply checkSuggestable_one_negative].
Qed.

Lemma opposite_diagnostics_exclude_each_other_witness :
  withMessage shouldBeFixable
    [mkDiagnostic (ElementNode Samples.fixableCode) shouldNotBeFixable] = [] \/
  withMessage shouldNotBeFixable
    [mkDiagnostic (ElementNode Samples.fixableCode) shouldNotBeFixable] = [].
Proof.
  apply (opposite_diagnostics_exclude_each_other Samples.staticPropertyName
           Samples.fileNotFixable Samples.createScope).
  exists 1. vm_compute. reflexivity.
Defined.

(** X8.  Along a traversal, once the rule object is set, its [meta] and
    [context] stay, the collected [fix] and [suggest] keys only grow at the
    end, and [hasUnknown] and [found] are never reset. *)
Theorem findings_only_grow getPropertyName fuel :
  forall visits st st' rule,
    traverse getPropertyName fuel st visits = Some st' ->
    ruleObject st = Some rule ->
    exists rule',
      ruleObject st' = Some rule' /\
      meta rule' = meta rule /\
      context rule' = context rule /\
      (exists extra,
          fixNodes (report rule') = fixNodes (report rule) ++ extra) /\
      (exists extra,
          suggestNodes (report rule') = suggestNodes (report rule) ++ extra) /\
      (hasUnknown (report rule) = true -> hasUnknown (report rule') = true) /\
      (found (report rule) = true -> found (report rule') = true).
Proof.
  induction visits as [|v rest IH]; intros st st' rule H Hrule; simpl in H.
  - inversion H; subst. exists rule.
    repeat split; auto; exists []; rewrite app_nil_r; reflexivity.
  - bind_inv H.
    assert (Hstep : exists rule1,
               ruleObject r = Some rule1 /\
               meta rule1 = meta rule /\
               context rule1 = context rule /\
               (exists extra,
                   fixNodes (report rule1) = fixNodes (report rule) ++ extra) /\
               (exists extra,
                   suggestNodes (report rule1)
                   = suggestNodes (report rule) ++ extra) /\
               (hasUnknown (report rule) = true ->
                hasUnknown (report rule1) = true) /\
               (found (report rule) = true -> found (report rule1) = true)).
    { destruct v; simpl in Hr.
      - inversion Hr; subst.
        rewrite (on_ObjectExpression_keeps _ _ _ _ Hrule). exists rule.
        repeat split; auto; exists []; rewrite app_nil_r; reflexivity.
      - eapply on_CallExpression_grows; eassumption. }
    destruct Hstep as [rule1 [H1 [Hm [Hc [[e1 Hf] [[e2 Hs] [Hu Hfd]]]]]]].
    destruct (IH _ _ _ H H1)
      as [rule' [H' [Hm' [Hc' [[e1' Hf'] [[e2' Hs'] [Hu' Hfd']]]]]]].
    exists rule'. split; [assumption|].
    split; [congruence|]. split; [congruence|].
    split; [exists (e1 ++ e1'); rewrite Hf', Hf, app_assoc; reflexivity|].
    split; [exists (e2 ++ e2'); rewrite Hs', Hs, app_assoc; reflexivity|].
    split; auto.
Qed.

Lemma findings_only_grow_witness :
  exists rule',
    ruleObject
      (mkState
         (Some (mkRuleObject [] Samples.contextParam
                  (mkReport [] [Samples.ident "fix" 14; Samples.ident "fix" 14]
                     true true))) [])
    = Some rule' /\
    exists extra,
      fixNodes (report rule') = [Samples.ident "fix" 14] ++ extra.
Proof.
  destruct (findings_only_grow Samples.staticPropertyName 1
              [Samples.contextReport Samples.createScope
                 [Samples.descriptor [Samples.fixMethod]]]
              (mkState
                 (Some (mkRuleObject [] Samples.contextParam
                          (mkReport [] [Samples.ident "fix" 14] true true))) [])
              (mkState
                 (Some (mkRuleObject [] Samples.contextParam
                          (mkReport []
                             [Samples.ident "fix" 14; Samples.ident "fix" 14]
                             true true))) [])
              (mkRuleObject [] Samples.contextParam
                 (mkReport [] [Samples.ident "fix" 14] true true)))
    as [rule' [Hrule' [_ [_ [Hfix _]]]]].
  - vm_compute. reflexivity.
  - reflexivity.
  - exists rule'. split; [exact Hrule'|exact Hfix].
Defined.

(** X9.  When some report site passes [suggest], [meta] yields no spread
    element and declares no [hasSuggestions] property or one whose value is a
    literal other than [true], the file gets one [shouldBeSuggestable]
    diagnostic for each collected [suggest] key, on that key, in order. *)
Theorem shouldBeSuggestable_reported
    getPropertyName visits exitScope st rule props :
  Traverses getPropertyName initialState visits st ->
  ruleObject st = Some rule ->
  suggestNodes (report rule) <> [] ->
  Iterates exitScope (meta rule) props ->
  existsb isSpreadElement props = false ->
  (declaredProperty getPropertyName "hasSuggestions" props = None \/
   exists key computed value,
     declaredProperty getPropertyName "hasSuggestions" props
     = Some (Property key computed (Literal value)) /\
     value <> VBoolean true) ->
  exists ds,
    Lints getPropertyName visits exitScope ds /\
    withMessage shouldBeSuggestable ds
    = map (fun key => mkDiagnostic (KeyNode key) shouldBeSuggestable)
          (suggestNodes (report rule)).
Proof.
  intros Ht Hrule Hsuggest [fuel Hprops] Hspread Hdeclared.
  assert (Hfound : found (report rule) = true).
  { destruct (found (report rule)) eqn:Hfound; [reflexivity|].
    destruct Ht as [f Ht].
    destruct (traverse_found getPropertyName _ _ _ _ Ht initialState_found
                rule Hrule Hfound) as [_ Hnil].
    contradiction. }
  pose proof (on_Program_exit_found getPropertyName _ _ _ _ _
                Hrule Hfound Hprops) as Hexit.
  eexists. split; [eapply Lints_intro; eassumption|].
  simpl. destruct Ht as [f Ht]. apply traverse_reported in Ht.
  rewrite Ht. simpl. rewrite withMessage_app.
  rewrite (proj1 (checkFixable_not_suggestable _ _)). simpl.
  unfold checkSuggestable.
  rewrite scanned_hasSpread, Hspread, scanned_hasSuggestionsProp.
  destruct (suggestNodes (report rule)) as [|key0 keys] eqn:Hkeys;
    [contradiction|].
  destruct Hdeclared as [->|[key [computed [value [-> Hvalue]]]]].
  - rewrite withMessage_reports. reflexivity.
  - destruct value as [s|[|]|raw|raw|pattern|];
      try (rewrite withMessage_reports; reflexivity).
    contradiction.
Qed.

Lemma shouldBeSuggestable_reported_witness :
  exists ds,
    Lints Samples.staticPropertyName Samples.fileSuggest Samples.createScope ds /\
    withMessage shouldBeSuggestable ds
    = [mkDiagnostic (KeyNode (Samples.ident "suggest" 15)) shouldBeSuggestable].
Proof.
  apply (shouldBeSuggestable_reported Samples.staticPropertyName
           Samples.fileSuggest Samples.createScope
           (mkState
              (Some (mkRuleObject
                       [Samples.prop "hasSuggestions" (Literal (VBoolean false))]
                       Samples.contextParam
                       (mkReport [Samples.ident "suggest" 15] [] false true))) [])
           (mkRuleObject
              [Samples.prop "hasSuggestions" (Literal (VBoolean false))]
              Samples.contextParam
              (mkReport [Samples.ident "suggest" 15] [] false true))
           [Samples.prop "hasSuggestions" (Literal (VBoolean false))]).
  - exists 1. vm_compute. reflexivity.
  - reflexivity.
  - discriminate.
  - exists 1. reflexivity.
  - reflexivity.
  - right. exists (Samples.ident "hasSuggestions" 0), false, (VBoolean false).
    split; [reflexivity|discriminate].
Defined.

(** X10.  When a report call was found, no report site passes [suggest], no
    report call has an unknown shape, and the [hasSuggestions] property that
    [meta] declares is the literal [true], the file gets exactly one
    [shouldNotBeSuggestable] diagnostic, on that property; a spread in
    [meta] does not prevent it. *)
Theorem shouldNotBeSuggestable_reported
    getPropertyName visits exitScope st rule props key computed :
  Traverses getPropertyName initialState visits st ->
  ruleObject st = Some rule ->
  found (report rule) = true ->
  suggestNodes (report rule) = [] ->
  hasUnknown (report rule) = false ->
  Iterates exitScope (meta rule) props ->
  declaredProperty getPropertyName "hasSuggestions" props
  = Some (Property key computed (Literal (VBoolean true))) ->
  exists ds,
    Lints getPropertyName visits exitScope ds /\
    withMessage shouldNotBeSuggestable ds
    = [mkDiagnostic (ElementNode (Property key computed (Literal (VBoolean true))))
         shouldNotBeSuggestable].
Proof.
  intros Ht Hrule Hfound Hsuggest Hunknown [fuel Hprops] Hdeclared.
  pose proof (on_Program_exit_found getPropertyName _ _ _ _ _
                Hrule Hfound Hprops) as Hexit.
  eexists. split; [eapply Lints_intro; eassumption|].
  simpl. destruct Ht as [f Ht]. apply traverse_reported in Ht.
  rewrite Ht. simpl. rewrite withMessage_app.
  rewrite (proj2 (checkFixable_not_suggestable _ _)). simpl.
  unfold checkSuggestable.
  rewrite Hsuggest, Hunknown, scanned_hasSuggestionsProp, Hdeclared.
  reflexivity.
Qed.

Lemma shouldNotBeSuggestable_reported_witness :
  exists ds,
    Lints Samples.staticPropertyName Samples.fileNotSuggestable
      Samples.createScope ds /\
    withMessage shouldNotBeSuggestable ds
    = [mkDiagnostic
         (ElementNode (Samples.prop "hasSuggestions" (Literal (VBoolean true))))
         shouldNotBeSuggestable].
Proof.
  eapply (shouldNotBeSuggestable_reported Samples.staticPropertyName
            Samples.fileNotSuggestable Samples.createScope).
  - exists 1. vm_compute. reflexivity.
  - reflexivity.
  - reflexivity.
  - reflexivity.
  - reflexivity.
  - exists 1. reflexivity.
  - reflexivity.
Defined.

(** X11.  A declared value that the checks do not read gives no diagnostic
    of its capability: a [hasSuggestions] whose value is not a literal gives
    neither [shouldBeSuggestable] nor [shouldNotBeSuggestable], and a
    [fixable] whose value is neither a literal nor an identifier gives
    neither [shouldBeFixable] nor [shouldNotBeFixable]. *)
Theorem unread_meta_values_give_no_diagnostic
    getPropertyName visits exitScope st rule props ds :
  Traverses getPropertyName initialState visits st ->
  ruleObject st = Some rule ->
  Iterates exitScope (meta rule) props ->
  Lints getPropertyName visits exitScope ds ->
  (forall key computed value,
      declaredProperty getPropertyName "hasSuggestions" props
      = Some (Property key computed value) ->
      (forall v, value <> Literal v) ->
      withMessage shouldBeSuggestable ds = [] /\
      withMessage shouldNotBeSuggestable ds = []) /\
  (forall key computed value,
      declaredProperty getPropertyName "fixable" props
      = Some (Property key computed value) ->
      (forall v, value <> Literal v) ->
      (forall id, value <> Identifier id) ->
      withMessage shouldBeFixable ds = [] /\
      withMessage shouldNotBeFixable ds = []).
Proof.
  intros Ht Hrule Hprops Hds.
  destruct (Lints_inv _ _ _ _ _ _ _ Ht Hrule Hprops Hds) as [->|[_ ->]];
    [split; intros; split; reflexivity|].
  split.
  - intros key computed value Hdeclared Hliteral.
    rewrite !withMessage_app.
    rewrite (proj1 (checkFixable_not_suggestable _ _)).
    rewrite (proj2 (checkFixable_not_suggestable _ _)). simpl.
    unfold checkSuggestable. rewrite scanned_hasSuggestionsProp, Hdeclared.
    destruct value; try (exfalso; eapply Hliteral; reflexivity);
      destruct (suggestNodes (report rule)),
        (hasSpread (scanned getPropertyName props)),
        (hasUnknown (report rule)); split; reflexivity.
  - intros key computed value Hdeclared Hliteral Hidentifier.
    rewrite !withMessage_app.
    rewrite (proj1 (checkSuggestable_not_fixable _ _)).
    rewrite (proj2 (checkSuggestable_not_fixable _ _)), !app_nil_r.
    unfold checkFixable. rewrite scanned_fixableProp, Hdeclared.
    destruct value; try (exfalso; eapply Hliteral; reflexivity);
      try (exfalso; eapply Hidentifier; reflexivity);
      destruct (fixNodes (report rule)),
        (hasSpread (scanned getPropertyName props)),
        (hasUnknown (report rule)); split; reflexivity.
Qed.

Lemma unread_meta_values_give_no_diagnostic_witness :
  Lints Samples.staticPropertyName Samples.fileComputedMeta
    Samples.createScope [].
Proof.
  assert (Hds : exists ds,
             Lints Samples.staticPropertyName Samples.fileComputedMeta
               Samples.createScope ds /\
             withMessage shouldBeSuggestable ds = ds).
  { eexists. split; [exists 1; vm_compute; reflexivity|reflexivity]. }
  destruct Hds as [ds [Hds Hall]].
  destruct (unread_meta_values_give_no_diagnostic Samples.staticPropertyName
              Samples.fileComputedMeta Samples.createScope
              (mkState
                 (Some (mkRuleObject
                          [Samples.prop "hasSuggestions" (Samples.ident "enabled" 21);
                           Samples.prop "fixable"
                             (CallExpression (Samples.ident "kind" 22) [])]
                          Samples.contextParam
                          (mkReport [Samples.ident "suggest" 15] [] false true)))
                 [])
              (mkRuleObject
                 [Samples.prop "hasSuggestions" (Samples.ident "enabled" 21);
                  Samples.prop "fixable"
                    (CallExpression (Samples.ident "kind" 22) [])]
                 Samples.contextParam
                 (mkReport [Samples.ident "suggest" 15] [] false true))
              [Samples.prop "hasSuggestions" (Samples.ident "enabled" 21);
               Samples.prop "fixable"
                 (CallExpression (Samples.ident "kind" 22) [])]
              ds) as [Hsuggest _].
  - exists 1. vm_compute. reflexivity.
  - reflexivity.
  - exists 1. reflexivity.
  - exact Hds.
  - destruct (Hsuggest (Samples.ident "hasSuggestions" 0) false
                (Samples.ident "enabled" 21) eq_refl) as [Hnone _].
    + discriminate.
    + rewrite Hall in Hnone. rewrite <- Hnone. exact Hds.
Defined.

(** X12.  When [meta] yields a spread element, the file gets neither
    [shouldBeFixable] nor [shouldBeSuggestable], whatever the report sites
    pass. *)
Theorem meta_spread_suppresses_positive
    getPropertyName visits exitScope st rule props ds :
  Traverses getPropertyName initialState visits st ->
  ruleObject st = Some rule ->
  Iterates exitScope (meta rule) props ->
  existsb isSpreadElement props = true ->
  Lints getPropertyName visits exitScope ds ->
  positive ds = [].
Proof.
  intros Ht Hrule Hprops Hspread Hds.
  destruct (Lints_inv _ _ _ _ _ _ _ Ht Hrule Hprops Hds) as [->|[_ ->]];
    [reflexivity|].
  rewrite positive_app.
  destruct (positive_with_spread (report rule) (scanned getPropertyName props))
    as [Hf Hs].
  { rewrite scanned_hasSpread. assumption. }
  rewrite Hf, Hs. reflexivity.
Qed.

Lemma meta_spread_suppresses_positive_witness :
  positive [] = [] /\
  Lints Samples.staticPropertyName Samples.filePartialSpread Samples.fileScope [].
Proof.
  assert (Hds : Lints Samples.staticPropertyName Samples.filePartialSpread
                  Samples.fileScope [])
    by (exists 5; vm_compute; reflexivity).
  split; [|exact Hds].
  apply (meta_spread_suppresses_positive Samples.staticPropertyName
           Samples.filePartialSpread Samples.fileScope
           (mkState
              (Some (mkRuleObject [SpreadElement (Samples.ident "base" 0)]
                       Samples.contextParam
                       (mkReport [Samples.ident "suggest" 15]
                          [Samples.ident "fix" 14] false true))) [])
           (mkRuleObject [SpreadElement (Samples.ident "base" 0)]
              Samples.contextParam
              (mkReport [Samples.ident "suggest" 15] [Samples.ident "fix" 14]
                 false true))
           [Samples.fixableCode; SpreadElement (Samples.ident "base" 0)]).
  - exists 1. vm_compute. reflexivity.
  - reflexivity.
  - exists 5. reflexivity.
  - reflexivity.
  - exact Hds.
Defined.

(** X13.  A report call on the [context] parameter whose single argument is
    not an object expression marks the findings as unknown for the rest of
    the traversal: the file gets neither [shouldNotBeFixable] nor
    [shouldNotBeSuggestable]. *)
Theorem opaque_report_argument_suppresses_negative
    getPropertyName before scope callee argument after exitScope mid rule ds :
  Traverses getPropertyName initialState before mid ->
  ruleObject mid = Some rule ->
  reportCallOn (context rule) scope callee = true ->
  isObjectExpression argument = false ->
  Lints getPropertyName
    (before ++ VisitCallExpression scope callee [argument] :: after)
    exitScope ds ->
  negative ds = [].
Proof.
  intros [f1 Hbefore] Hrule Hcall Hargument [fuel Hds].
  apply lint_inv in Hds. destruct Hds as [st [Ht Hcases]].
  destruct Hcases as [[-> _]|[rule' [props [Hrule' [_ [_ ->]]]]]];
    [reflexivity|].
  apply traverse_app in Ht. destruct Ht as [mid' [Hbefore' Hafter]].
  assert (mid' = mid)
    by (eapply Traverses_functional; [exists fuel; exact Hbefore'
                                     |exists f1; exact Hbefore]).
  subst mid'. simpl in Hafter. bind_inv Hafter.
  destruct (reportCallOn_reportCallee _ _ _ [argument] Hcall eq_refl)
    as [object [variable [Hc [Hv Hd]]]].
  unfold on_CallExpression in Hr. rewrite Hrule, Hc, Hv, Hd in Hr.
  cbv zeta in Hr.
  assert (Hset : r = withReport mid rule
                       (mkReport (suggestNodes (report rule))
                          (fixNodes (report rule)) true true)).
  { destruct argument; try discriminate; inversion Hr; reflexivity. }
  subst r.
  destruct (findings_only_grow getPropertyName _ _ _ _ _ Hafter eq_refl)
    as [rule2 [Hrule2 [_ [_ [_ [_ [Hunknown _]]]]]]].
  assert (rule2 = rule') by congruence. subst rule2.
  specialize (Hunknown eq_refl).
  rewrite negative_app.
  destruct (report rule') as [s f u fd]. simpl in Hunknown. subst u.
  rewrite negative_checkFixable_unknown, negative_checkSuggestable_unknown.
  reflexivity.
Qed.

Lemma opaque_report_argument_suppresses_negative_witness :
  negative [] = [] /\
  Lints Samples.staticPropertyName Samples.fileOpaqueDescriptor
    Samples.createScope [].
Proof.
  assert (Hds : Lints Samples.staticPropertyName Samples.fileOpaqueDescriptor
                  Samples.createScope [])
    by (exists 1; vm_compute; reflexivity).
  split; [|exact Hds].
  apply (opaque_report_argument_suppresses_negative Samples.staticPropertyName
           (Samples.ruleFile Samples.createScope
              [Samples.fixableCode;
               Samples.prop "hasSuggestions" (Literal (VBoolean true))] [])
           Samples.createScope
           (MemberExpression (Samples.ident "context" 11)
              (Samples.ident "report" 12) false)
           (Samples.ident "descriptor" 23) [] Samples.createScope
           (mkState
              (Some (mkRuleObject
                       [Samples.fixableCode;
                        Samples.prop "hasSuggestions" (Literal (VBoolean true))]
                       Samples.contextParam (mkReport [] [] false false))) [])
           (mkRuleObject
              [Samples.fixableCode;
               Samples.prop "hasSuggestions" (Literal (VBoolean true))]
              Samples.contextParam (mkReport [] [] false false))).
  - exists 0. vm_compute. reflexivity.
  - reflexivity.
  - reflexivity.
  - reflexivity.
  - exact Hds.
Defined.

(** ** The positive checks and [hasUnknown] *)

Lemma withMessage_checkFixable_positive getPropertyName r props :
  withMessage shouldBeFixable
    (checkFixable r (scanned getPropertyName props))
  = if fixableUndeclared getPropertyName props
    then reports (fixNodes r) shouldBeFixable
    else [].
Proof.
  unfold checkFixable, fixableUndeclared.
  rewrite scanned_hasSpread, scanned_fixableProp.
  destruct (fixNodes r) as [|key keys].
  - assert (Hneg : withMessage shouldBeFixable
                     (if hasUnknown r then []
                      else match declaredProperty getPropertyName "fixable" props
                           with
                           | Some (Property _ _ (Literal (VString _)) as prop) =>
                               [mkDiagnostic (ElementNode prop) shouldNotBeFixable]
                           | _ => []
                           end) = []).
    { repeat match goal with
             | |- context [match ?x with _ => _ end] => destruct x
             end; reflexivity. }
    rewrite Hneg.
    repeat match goal with
           | |- context [match ?x with _ => _ end] => destruct x
           end; reflexivity.
  - destruct (existsb isSpreadElement props); [reflexivity|]. simpl negb.
    cbv iota. rewrite andb_true_l.
    repeat match goal with
           | |- context [match ?x with _ => _ end] => destruct x
           end;
      rewrite ?withMessage_reports; reflexivity.
Qed.

Lemma withMessage_checkSuggestable_positive getPropertyName r props :
  withMessage shouldBeSuggestable
    (checkSuggestable r (scanned getPropertyName props))
  = if suggestionsUndeclared getPropertyName props
    then reports (suggestNodes r) shouldBeSuggestable
    else [].
Proof.
  unfold checkSuggestable, suggestionsUndeclared.
  rewrite scanned_hasSpread, scanned_hasSuggestionsProp.
  destruct (suggestNodes r) as [|key keys].
  - assert (Hneg : withMessage shouldBeSuggestable
                     (if hasUnknown r then []
                      else match declaredProperty getPropertyName
                                   "hasSuggestions" props with
                           | Some (Property _ _ (Literal (VBoolean true)) as prop) =>
                               [mkDiagnostic (ElementNode prop)
                                  shouldNotBeSuggestable]
                           | _ => []
                           end) = []).
    { repeat match goal with
             | |- context [match ?x with _ => _ end] => destruct x
             end; reflexivity. }
    rewrite Hneg.
    repeat match goal with
           | |- context [match ?x with _ => _ end] => destruct x
           end; reflexivity.
  - destruct (existsb isSpreadElement props); [reflexivity|]. simpl negb.
    cbv iota. rewrite andb_true_l.
    repeat match goal with
           | |- context [match ?x with _ => _ end] => destruct x
           end;
      rewrite ?withMessage_reports; reflexivity.
Qed.

(** C2.  [hasUnknown] suppresses the two negative checks only.  Whatever the
    value of [hasUnknown], a file whose traversal returns gets one
    [shouldBeFixable] diagnostic on every collected [fix] key exactly when
    [meta] yields no spread and declares no [fixable] property or one that
    is the literal [null] or the identifier [undefined], and one
    [shouldBeSuggestable] diagnostic on every collected [suggest] key
    exactly when [meta] yields no spread and declares no [hasSuggestions]
    property or one that is a literal other than [true]; and when
    [hasUnknown] is set it gets no [shouldNotBeFixable] and no
    [shouldNotBeSuggestable] diagnostic. *)
Theorem hasUnknown_suppresses_only_negative
    getPropertyName visits exitScope st rule props :
  Traverses getPropertyName initialState visits st ->
  ruleObject st = Some rule ->
  Iterates exitScope (meta rule) props ->
  exists ds,
    Lints getPropertyName visits exitScope ds /\
    withMessage shouldBeFixable ds
    = (if fixableUndeclared getPropertyName props
       then map (fun key => mkDiagnostic (KeyNode key) shouldBeFixable)
                (fixNodes (report rule))
       else []) /\
    withMessage shouldBeSuggestable ds
    = (if suggestionsUndeclared getPropertyName props
       then map (fun key => mkDiagnostic (KeyNode key) shouldBeSuggestable)
                (suggestNodes (report rule))
       else []) /\
    (hasUnknown (report rule) = true -> negative ds = []).
Proof.
  intros Ht Hrule [fuel Hprops].
  assert (Hreported : reported st = []).
  { destruct Ht as [f Ht]. apply traverse_reported in Ht. assumption. }
  destruct (found (report rule)) eqn:Hfound.
  - pose proof (on_Program_exit_found getPropertyName _ _ _ _ _
                  Hrule Hfound Hprops) as Hexit.
    eexists. split; [eapply Lints_intro; eassumption|].
    simpl. rewrite Hreported. simpl. rewrite !withMessage_app.
    rewrite (proj1 (checkSuggestable_not_fixable _ _)), app_nil_r.
    rewrite (proj1 (checkFixable_not_suggestable _ _)). simpl.
    split; [apply withMessage_checkFixable_positive|].
    split; [apply withMessage_checkSuggestable_positive|].
    intros Hunknown. rewrite negative_app.
    destruct (report rule) as [s f u fd]. simpl in Hunknown. subst u.
    rewrite negative_checkFixable_unknown, negative_checkSuggestable_unknown.
    reflexivity.
  - assert (Hexit : on_Program_exit getPropertyName 0 exitScope st = Some st).
    { unfold on_Program_exit. rewrite Hrule, Hfound. reflexivity. }
    exists (reported st). split; [eapply Lints_intro; eassumption|].
    rewrite Hreported.
    destruct Ht as [f Ht].
    destruct (traverse_found getPropertyName _ _ _ _ Ht initialState_found
                rule Hrule Hfound) as [Hfix Hsuggest].
    rewrite Hfix, Hsuggest.
    destruct (fixableUndeclared getPropertyName props),
      (suggestionsUndeclared getPropertyName props); auto.
Qed.

(** [fileUnknown]: the report descriptor has a spread that is not resolved,
    so [hasUnknown] is set, and a [fix]; [meta] declares
    [hasSuggestions: true] only.  [shouldBeFixable] is reported on the [fix]
    key and [shouldNotBeSuggestable] is not. *)
Lemma hasUnknown_suppresses_only_negative_witness :
  exists ds,
    Lints Samples.staticPropertyName Samples.fileUnknown Samples.createScope ds /\
    withMessage shouldBeFixable ds
    = [mkDiagnostic (KeyNode (Samples.ident "fix" 14)) shouldBeFixable] /\
    withMessage shouldBeSuggestable ds = [] /\
    (true = true -> negative ds = []).
Proof.
  apply (hasUnknown_suppresses_only_negative Samples.staticPropertyName
           Samples.fileUnknown Samples.createScope
           (mkState (Some Samples.unknownRule) []) Samples.unknownRule
           [Samples.prop "hasSuggestions" (Literal (VBoolean true))]).
  - exists 2. vm_compute. reflexivity.
  - reflexivity.
  - exists 1. reflexivity.
Defined.

(** C3, as stated, fails for a report site whose descriptor yields several
    [fix] properties: [fileFixBranches] has one report site, its descriptor
    spreads [quick ? { fix: a } : { fix: b }], and the file gets two
    [shouldBeFixable] diagnostics, one on each [fix] key. *)
Lemma one_report_site_two_fix_diagnostics :
  List.length (filter (isReportSite Samples.contextParam) Samples.fileFixBranches)
  = 1 /\
  exists st rule,
    traverse Samples.staticPropertyName 3 initialState Samples.fileFixBranches
    = Some st /\
    ruleObject st = Some rule /\
    fixNodes (report rule) <> [] /\
    Iterates Samples.createScope (meta rule) [] /\
    forall ds,
      Lints Samples.staticPropertyName Samples.fileFixBranches
        Samples.createScope ds ->
      withMessage shouldBeFixable ds
      = [mkDiagnostic (KeyNode (Samples.ident "fix" 25)) shouldBeFixable;
         mkDiagnostic (KeyNode (Samples.ident "fix" 27)) shouldBeFixable].
Proof.
  split; [vm_compute; reflexivity|].
  eexists. eexists.
  split; [vm_compute; reflexivity|].
  split; [reflexivity|].
  split; [discriminate|].
  split; [exists 1; reflexivity|].
  intros ds Hds.
  assert (ds = [mkDiagnostic (KeyNode (Samples.ident "fix" 25)) shouldBeFixable;
                mkDiagnostic (KeyNode (Samples.ident "fix" 27)) shouldBeFixable]).
  { apply (Lints_functional Samples.staticPropertyName Samples.fileFixBranches
             Samples.createScope); [assumption|].
    exists 3. vm_compute. reflexivity. }
  subst ds. reflexivity.
Qed.

(** ** Further properties of no-restricted-imports *)

Section ImportRestrictions.

Import NoRestrictedImports.

Lemma diagnostics_app a b :
  diagnostics (a ++ b) = diagnostics a ++ diagnostics b.
Proof. apply flat_map_app. Qed.

Lemma patternChecks_app a b :
  patternChecks (a ++ b) = patternChecks a ++ patternChecks b.
Proof. apply flat_map_app. Qed.

Lemma findRestrictedPath_checks paths src kind :
  diagnostics (fst (findRestrictedPath paths src kind)) = [] /\
  patternChecks (fst (findRestrictedPath paths src kind)) = [] /\
  existsb isThrown (fst (findRestrictedPath paths src kind)) = false /\
  ~ In GenerateImportNames (fst (findRestrictedPath paths src kind)).
Proof.
  induction paths as [|p paths IH]; simpl; [tauto|].
  destruct (String.eqb (path_name p) src && kindApplies (path_importKind p) kind).
  - simpl. repeat split; auto. intros [H|[]]. discriminate.
  - destruct (findRestrictedPath paths src kind) as [actions result].
    simpl in *. destruct IH as [H1 [H2 [H3 H4]]]. repeat split; auto.
    intros [H|H]; [discriminate|auto].
Qed.

Lemma findRestrictedPath_none paths src kind :
  forallb (fun p => negb (pathApplies p src kind)) paths = true ->
  snd (findRestrictedPath paths src kind) = None.
Proof.
  induction paths as [|p paths IH]; intros H; [reflexivity|].
  simpl in H. apply andb_true_iff in H. destruct H as [Hp Hrest].
  apply negb_true_iff in Hp. unfold pathApplies in Hp. simpl. rewrite Hp.
  specialize (IH Hrest).
  destruct (findRestrictedPath paths src kind) as [actions result].
  assumption.
Qed.

Lemma findRestrictedPath_first before p rest src kind :
  forallb (fun q => negb (pathApplies q src kind)) before = true ->
  pathApplies p src kind = true ->
  snd (findRestrictedPath (before ++ p :: rest) src kind) = Some p.
Proof.
  intros Hbefore Hp. induction before as [|q before IH]; simpl.
  - unfold pathApplies in Hp. rewrite Hp. reflexivity.
  - simpl in Hbefore. apply andb_true_iff in Hbefore.
    destruct Hbefore as [Hq Hrest]. apply negb_true_iff in Hq.
    unfold pathApplies in Hq. rewrite Hq. specialize (IH Hrest).
    destruct (findRestrictedPath (before ++ p :: rest) src kind)
      as [actions result].
    assumption.
Qed.

Lemma findRestrictedPath_some paths src kind p :
  snd (findRestrictedPath paths src kind) = Some p ->
  In p paths /\ pathApplies p src kind = true.
Proof.
  induction paths as [|q paths IH]; simpl; [discriminate|].
  destruct (String.eqb (path_name q) src && kindApplies (path_importKind q) kind)
    eqn:Hq.
  - simpl. intros H; inversion H; subst. split; [left; reflexivity|exact Hq].
  - destruct (findRestrictedPath paths src kind) as [actions result].
    simpl in *. intros H. destruct (IH H) as [Hin Hp]. auto.
Qed.

Lemma findRestrictedPath_none_inv paths src kind :
  snd (findRestrictedPath paths src kind) = None ->
  forall p, In p paths -> pathApplies p src kind = false.
Proof.
  induction paths as [|q paths IH]; simpl; [intros _ p []|].
  destruct (String.eqb (path_name q) src && kindApplies (path_importKind q) kind)
    eqn:Hq.
  - discriminate.
  - destruct (findRestrictedPath paths src kind) as [actions result].
    simpl in *. intros H p [<-|Hin]; [exact Hq|auto].
Qed.

Lemma report_in n locs base restrictedKind custom src names name a :
  In a (report n locs base restrictedKind custom src names name) ->
  exists d, a = Report d.
Proof.
  unfold report. destruct locs as [ls|].
  - intros H. apply in_map_iff in H. destruct H as [l [<- _]]. eexists; reflexivity.
  - intros [<-|[]]. eexists; reflexivity.
Qed.

Lemma report_actions n locs base restrictedKind custom src names name :
  patternChecks (report n locs base restrictedKind custom src names name) = [] /\
  existsb isThrown (report n locs base restrictedKind custom src names name)
  = false.
Proof.
  unfold report. destruct locs as [ls|]; [|simpl; auto].
  induction ls as [|l ls [IH1 IH2]]; simpl; auto.
Qed.

Lemma report_specifiers n locs base restrictedKind custom src names name :
  map reportedSpecifier
    (diagnostics
       (report n (Some locs) base restrictedKind custom src names name))
  = map (fun l => (match name with Some x => x | None => "*" end, Some l)) locs.
Proof.
  unfold report. induction locs as [|l locs IH]; [reflexivity|].
  simpl in *. rewrite IH. reflexivity.
Qed.

Lemma reportImportNames_cons n p restricted src name locs names :
  reportImportNames n p restricted src ((name, locs) :: names)
  = (if String.eqb name "*" then
       report n (Some locs) everything (path_importKind p) (path_customMessage p)
              src (Some (String.concat "," restricted)) None
     else if existsb (String.eqb name) restricted then
       report n (Some locs) importName (path_importKind p) (path_customMessage p)
              src None (Some name)
     else [])
    ++ reportImportNames n p restricted src names.
Proof. reflexivity. Qed.

Lemma reportImportNames_actions n p restricted src names :
  patternChecks (reportImportNames n p restricted src names) = [] /\
  existsb isThrown (reportImportNames n p restricted src names) = false.
Proof.
  induction names as [|[name locs] names [IH1 IH2]]; [simpl; auto|].
  rewrite reportImportNames_cons, patternChecks_app, existsb_app, IH1, IH2.
  destruct (String.eqb name "*").
  - destruct (report_actions n (Some locs) everything (path_importKind p)
                (path_customMessage p) src
                (Some (String.concat "," restricted)) None) as [H1 H2].
    rewrite H1, H2. auto.
  - destruct (existsb (String.eqb name) restricted).
    + destruct (report_actions n (Some locs) importName (path_importKind p)
                  (path_customMessage p) src None (Some name)) as [H1 H2].
      rewrite H1, H2. auto.
    + auto.
Qed.

Lemma reportImportNames_specifiers n p restricted src names :
  map reportedSpecifier (diagnostics (reportImportNames n p restricted src names))
  = reportedSpecifiers restricted names.
Proof.
  induction names as [|[name locs] names IH]; [reflexivity|].
  rewrite reportImportNames_cons, diagnostics_app, map_app, IH.
  change (reportedSpecifiers restricted ((name, locs) :: names))
    with ((if nameIsReported restricted name
           then map (fun l => (name, Some l)) locs else [])
          ++ reportedSpecifiers restricted names).
  f_equal. unfold nameIsReported.
  destruct (String.eqb_spec name "*") as [->|Hstar]; cbn [orb].
  - apply report_specifiers.
  - destruct (existsb (String.eqb name) restricted).
    + apply report_specifiers.
    + reflexivity.
Qed.

Lemma checkPatterns_cons g groups n src kind :
  checkPatterns (g :: groups) n src kind
  = PatternCheck g ::
    match group_matcher g src with
    | None => [Thrown]
    | Some ignored =>
        (if ignored && kindApplies (group_importKind g) kind
         then report n None patterns (group_importKind g)
                     (group_customMessage g) src None None
         else [])
        ++ checkPatterns groups n src kind
    end.
Proof. reflexivity. Qed.

Lemma checkPatterns_thrown groups n src kind :
  existsb isThrown (checkPatterns groups n src kind)
  = negb (forallb (matcherReturns src) groups).
Proof.
  induction groups as [|g groups IH]; [reflexivity|].
  rewrite checkPatterns_cons. cbn [existsb isThrown orb forallb].
  unfold matcherReturns at 1.
  destruct (group_matcher g src) as [ignored|]; [|reflexivity].
  rewrite existsb_app, IH, andb_true_l.
  destruct (ignored && kindApplies (group_importKind g) kind); [|reflexivity].
  rewrite (proj2 (report_actions n None patterns (group_importKind g)
                    (group_customMessage g) src None None)).
  reflexivity.
Qed.



Lemma checkPatterns_silent groups n src kind :
  forallb (matcherReturns src) groups = true ->
  forallb (fun g => negb (groupApplies g src kind)) groups = true ->
  diagnostics (checkPatterns groups n src kind) = [].
Proof.
  induction groups as [|g groups IH]; intros Hreturns H; [reflexivity|].
  simpl in H, Hreturns.
  apply andb_true_iff in H. destruct H as [Hg Hrest].
  apply andb_true_iff in Hreturns. destruct Hreturns as [Hr Hreturns].
  apply negb_true_iff in Hg. unfold groupApplies in Hg.
  unfold matcherReturns in Hr.
  rewrite checkPatterns_cons.
  destruct (group_matcher g src) as [ignored|]; [|discriminate].
  rewrite Hg.
  change (diagnostics (PatternCheck g :: ?l)) with (diagnostics l).
  apply IH; assumption.
Qed.

Lemma checkPatterns_in groups n src kind a :
  In a (checkPatterns groups n src kind) -> a <> GenerateImportNames.
Proof.
  induction groups as [|g groups IH]; [intros []|].
  rewrite checkPatterns_cons. intros [<-|H]; [discriminate|].
  destruct (group_matcher g src) as [ignored|].
  - apply in_app_or in H. destruct H as [H|H]; [|auto].
    destruct (ignored && kindApplies (group_importKind g) kind); [|destruct H].
    apply report_in in H. destruct H as [d ->]. discriminate.
  - destruct H as [<-|[]]. discriminate.
Qed.

End ImportRestrictions.

Section Verify.

Import NoRestrictedImports.

Variable trim : string -> string.

(** [verify] on a declaration whose source is a string literal. *)
Lemma verify_literal paths groups n kind generateImportNames value :
  source n = Some (Literal (VString value)) ->
  verify trim paths groups n kind generateImportNames
  = fst (findRestrictedPath paths (trim value) kind)
    ++ match snd (findRestrictedPath paths (trim value) kind) with
       | Some p =>
           match generateImportNames tt with
           | None => [GenerateImportNames; Thrown]
           | Some generated =>
               [GenerateImportNames]
               ++ match path_importNames p with
                  | Some restricted =>
                      reportImportNames n p restricted (trim value)
                        (collectImportNames generated)
                  | None =>
                      report n None path (path_importKind p)
                             (path_customMessage p) (trim value) None None
                  end
               ++ checkPatterns groups n (trim value) kind
           end
       | None => checkPatterns groups n (trim value) kind
       end.
Proof.
  intros Hsource. unfold verify. rewrite Hsource. simpl.
  destruct (findRestrictedPath paths (trim value) kind) as [checks [p|]];
    [|reflexivity].
  simpl. destruct (generateImportNames tt); reflexivity.
Qed.

(** X14.  When no restricted path has the trimmed source as its name with a
    kind that covers the declaration, and the matcher of every pattern
    group returns on the trimmed source without both matching it and
    covering the kind, [verify] reports nothing and neither calls the
    generator of import names nor throws. *)
Theorem verify_silent_when_no_restriction_applies
    paths groups n kind generateImportNames value :
  source n = Some (Literal (VString value)) ->
  forallb (fun p => negb (pathApplies p (trim value) kind)) paths = true ->
  forallb (matcherReturns (trim value)) groups = true ->
  forallb (fun g => negb (groupApplies g (trim value) kind)) groups = true ->
  diagnostics (verify trim paths groups n kind generateImportNames) = [] /\
  ~ In GenerateImportNames (verify trim paths groups n kind generateImportNames) /\
  existsb isThrown (verify trim paths groups n kind generateImportNames) = false.
Proof.
  intros Hsource Hpaths Hreturns Hgroups.
  rewrite (verify_literal _ _ _ _ _ _ Hsource).
  rewrite (findRestrictedPath_none _ _ _ Hpaths).
  destruct (findRestrictedPath_checks paths (trim value) kind)
    as [Hd [_ [Ht Hg]]].
  split; [|split].
  - rewrite diagnostics_app, Hd.
    rewrite (checkPatterns_silent _ _ _ _ Hreturns Hgroups). reflexivity.
  - intros Hin. apply in_app_or in Hin. destruct Hin as [Hin|Hin];
      [auto|].
    apply checkPatterns_in in Hin. apply Hin. reflexivity.
  - rewrite existsb_app, Ht, checkPatterns_thrown, Hreturns. reflexivity.
Qed.

(** X15.  Among the restricted paths, the first one that applies to the
    declaration decides what is reported: the paths after it, and the paths
    before it that do not apply, change no diagnostic. *)
Theorem first_applicable_path_decides
    before p rest groups n kind generateImportNames value :
  source n = Some (Literal (VString value)) ->
  forallb (fun q => negb (pathApplies q (trim value) kind)) before = true ->
  pathApplies p (trim value) kind = true ->
  diagnostics (verify trim (before ++ p :: rest) groups n kind generateImportNames)
  = diagnostics (verify trim [p] groups n kind generateImportNames).
Proof.
  intros Hsource Hbefore Hp.
  rewrite !(verify_literal _ _ _ _ _ _ Hsource).
  rewrite (findRestrictedPath_first _ _ rest _ _ Hbefore Hp).
  assert (Hsingle : snd (findRestrictedPath [p] (trim value) kind) = Some p)
    by (apply (findRestrictedPath_first [] p [] _ _ eq_refl Hp)).
  rewrite Hsingle, !diagnostics_app.
  rewrite (proj1 (findRestrictedPath_checks (before ++ p :: rest)
                    (trim value) kind)).
  rewrite (proj1 (findRestrictedPath_checks [p] (trim value) kind)).
  reflexivity.
Qed.

Lemma generated_part_not_thrown n p src generated :
  existsb isThrown
    ([GenerateImportNames]
     ++ match path_importNames p with
        | Some restricted =>
            reportImportNames n p restricted src (collectImportNames generated)
        | None =>
            report n None path (path_importKind p) (path_customMessage p)
                   src None None
        end) = false.
Proof.
  rewrite existsb_app. cbn [existsb isThrown orb].
  destruct (path_importNames p) as [restricted|].
  - apply reportImportNames_actions.
  - apply report_actions.
Qed.

(** X16.  On a declaration whose source is a string literal, [verify]
    throws exactly in two cases: a restricted path applies and the generator
    of import names throws (no second token in [export * from]); or the
    pattern loop is reached and the matcher of some pattern group throws on
    the trimmed source. *)
Theorem verify_throws_exactly_when
    paths groups n kind generateImportNames value :
  source n = Some (Literal (VString value)) ->
  (existsb isThrown (verify trim paths groups n kind generateImportNames) = true
   <->
   ((exists p, In p paths /\ pathApplies p (trim value) kind = true) /\
    generateImportNames tt = None) \/
   (((forall p, In p paths -> pathApplies p (trim value) kind = false) \/
     generateImportNames tt <> None) /\
    exists g, In g groups /\ group_matcher g (trim value) = None)).
Proof.
  intros Hsource.
  rewrite (verify_literal _ _ _ _ _ _ Hsource).
  rewrite existsb_app.
  rewrite (proj1 (proj2 (proj2 (findRestrictedPath_checks paths (trim value)
                                  kind)))).
  rewrite orb_false_l.
  assert (Hloop : existsb isThrown (checkPatterns groups n (trim value) kind)
                  = true <->
                  exists g, In g groups /\ group_matcher g (trim value) = None).
  { rewrite checkPatterns_thrown, negb_true_iff. split.
    - intros H. destruct (forallb_forall (matcherReturns (trim value)) groups)
        as [_ Hall].
      assert (Hex : existsb (fun g => negb (matcherReturns (trim value) g))
                      groups = true).
      { clear Hall. induction groups as [|g gs IH]; [discriminate|].
        simpl in *. destruct (matcherReturns (trim value) g); simpl in *; auto. }
      apply existsb_exists in Hex. destruct Hex as [g [Hin Hg]].
      exists g. split; [assumption|]. unfold matcherReturns in Hg.
      destruct (group_matcher g (trim value)); [discriminate|reflexivity].
    - intros [g [Hin Hg]].
      destruct (forallb (matcherReturns (trim value)) groups) eqn:Hall;
        [|reflexivity].
      rewrite forallb_forall in Hall. specialize (Hall g Hin).
      unfold matcherReturns in Hall. rewrite Hg in Hall. discriminate. }
  destruct (snd (findRestrictedPath paths (trim value) kind)) as [p|] eqn:Hfind.
  - destruct (findRestrictedPath_some _ _ _ _ Hfind) as [Hin Hp].
    destruct (generateImportNames tt) as [generated|].
    + rewrite app_assoc, existsb_app, generated_part_not_thrown, orb_false_l.
      rewrite Hloop. split.
      * intros H. right. split; [right; discriminate|exact H].
      * intros [[_ H]|[_ H]]; [discriminate|exact H].
    + split; [|reflexivity].
      intros _. left. split; [exists p; auto|reflexivity].
  - pose proof (findRestrictedPath_none_inv _ _ _ Hfind) as Hnone.
    rewrite Hloop. split.
    + intros H. right. split; [left; exact Hnone|exact H].
    + intros [[[p [Hin Hp]] _]|[_ H]]; [|exact H].
      rewrite (Hnone p Hin) in Hp. discriminate.
Qed.

End Verify.

Lemma verify_silent_when_no_restriction_applies_witness :
  NoRestrictedImports.diagnostics
    (NoRestrictedImports.verify Samples.trimSpaces [Samples.restrictFooTypes]
       [Samples.matchFoo] Samples.importFoo NoRestrictedImports.ValueImport
       (fun _ => Some [])) = [].
Proof.
  apply (verify_silent_when_no_restriction_applies Samples.trimSpaces
           [Samples.restrictFooTypes] [Samples.matchFoo] Samples.importFoo
           NoRestrictedImports.ValueImport (fun _ => Some []) " foo ").
  - reflexivity.
  - vm_compute. reflexivity.
  - vm_compute. reflexivity.
  - vm_compute. reflexivity.
Defined.

Lemma first_applicable_path_decides_witness :
  NoRestrictedImports.diagnostics
    (NoRestrictedImports.visitDeclaration Samples.trimSpaces
       ([Samples.restrictFooTypes]
        ++ Samples.restrictFooNames :: Samples.restrictFoo)
       [] Samples.importFoo)
  = NoRestrictedImports.diagnostics
      (NoRestrictedImports.visitDeclaration Samples.trimSpaces
         [Samples.restrictFooNames] [] Samples.importFoo).
Proof.
  apply (first_applicable_path_decides Samples.trimSpaces
           [Samples.restrictFooTypes] Samples.restrictFooNames
           Samples.restrictFoo [] Samples.importFoo
           NoRestrictedImports.ValueImport _ " foo ").
  - reflexivity.
  - vm_compute. reflexivity.
  - vm_compute. reflexivity.
Defined.

(** [import x from './foo'] with a pattern group: the matcher throws. *)
Lemma verify_throws_exactly_when_witness :
  existsb isThrown
    (NoRestrictedImports.visitDeclaration Samples.trimSpaces []
       [Samples.matchFoo] Samples.importRelative) = true.
Proof.
  apply (proj2 (verify_throws_exactly_when Samples.trimSpaces []
                  [Samples.matchFoo] Samples.importRelative
                  NoRestrictedImports.ValueImport
                  (fun _ =>
                     Some (map NoRestrictedImports.specifierName
                             [NoRestrictedImports.ImportDefaultSpecifier
                                (NoRestrictedImports.mkLoc 1 7 1 8)]))
                  "./foo" eq_refl)).
  right. split; [left; intros p []|].
  exists Samples.matchFoo. split; [left; reflexivity|reflexivity].
Defined.

Section ImportNames.

Import NoRestrictedImports.

Variable trim : string -> string.

Lemma collectImportNames_snoc generated entry :
  collectImportNames (generated ++ [entry])
  = addImportName (collectImportNames generated) (fst entry) (snd entry).
Proof.
  unfold collectImportNames. rewrite fold_left_app. reflexivity.
Qed.

Lemma addImportName_lookup name' :
  forall m name l,
    lookupImportName name' (addImportName m name l)
    = lookupImportName name' m ++ (if String.eqb name name' then [l] else []).
Proof.
  unfold lookupImportName.
  induction m as [|[n locs] m IH]; intros name l; simpl.
  - destruct (String.eqb name name'); reflexivity.
  - destruct (String.eqb_spec n name) as [->|Hn]; simpl.
    + destruct (String.eqb name name'); [reflexivity|].
      rewrite app_nil_r. reflexivity.
    + destruct (String.eqb_spec n name') as [->|Hn'].
      * destruct (String.eqb_spec name name') as [->|_];
          [contradiction|rewrite app_nil_r; reflexivity].
      * apply IH.
Qed.

Lemma addImportName_keys :
  forall m name l key,
    In key (map fst (addImportName m name l)) ->
    key = name \/ In key (map fst m).
Proof.
  induction m as [|[n locs] m IH]; intros name l key; simpl.
  - intros [<-|[]]. left; reflexivity.
  - destruct (String.eqb n name); simpl.
    + intros [<-|H]; auto.
    + intros [<-|H]; [auto|]. destruct (IH _ _ _ H); auto.
Qed.

Lemma addImportName_NoDup :
  forall m name l,
    NoDup (map fst m) -> NoDup (map fst (addImportName m name l)).
Proof.
  induction m as [|[n locs] m IH]; intros name l Hm; simpl.
  - constructor; [intros []|constructor].
  - inversion Hm as [|n' ks Hn Hks]; subst.
    destruct (String.eqb_spec n name) as [->|Hneq]; simpl.
    + constructor; assumption.
    + constructor; [|apply IH; assumption].
      intros Hin. destruct (addImportName_keys _ _ _ _ Hin); [congruence|].
      contradiction.
Qed.

Lemma locationsOf_snoc name generated entry :
  locationsOf name (generated ++ [entry])
  = locationsOf name generated
    ++ (if String.eqb (fst entry) name then [snd entry] else []).
Proof.
  unfold locationsOf. rewrite filter_app, map_app. simpl.
  destruct (String.eqb (fst entry) name); reflexivity.
Qed.

(** X17.  The map [importNames] groups the generated locations by name: its
    keys are pairwise distinct, and the locations it holds for a name are
    the locations generated for that name, in the order of generation. *)
Theorem collectImportNames_groups_by_name generated :
  NoDup (map fst (collectImportNames generated)) /\
  forall name,
    lookupImportName name (collectImportNames generated)
    = locationsOf name generated.
Proof.
  induction generated as [|entry generated [IHkeys IHlookup]] using rev_ind.
  - split; [constructor|reflexivity].
  - rewrite collectImportNames_snoc. split.
    + apply addImportName_NoDup. assumption.
    + intros name. rewrite addImportName_lookup, IHlookup, locationsOf_snoc.
      reflexivity.
Qed.

Lemma reportedSpecifiers_cons restricted name locs m :
  reportedSpecifiers restricted ((name, locs) :: m)
  = (if nameIsReported restricted name
     then map (fun l => (name, Some l)) locs else [])
    ++ reportedSpecifiers restricted m.
Proof. reflexivity. Qed.

Lemma reportedSpecifiers_add restricted :
  forall m name l,
    Permutation
      (reportedSpecifiers restricted (addImportName m name l))
      (reportedSpecifiers restricted m
       ++ (if nameIsReported restricted name then [(name, Some l)] else [])).
Proof.
  induction m as [|[n locs] m IH]; intros name l.
  - simpl addImportName. rewrite reportedSpecifiers_cons. simpl.
    rewrite app_nil_r. apply Permutation_refl.
  - simpl addImportName.
    destruct (String.eqb_spec n name) as [->|Hneq];
      rewrite !reportedSpecifiers_cons.
    + destruct (nameIsReported restricted name).
      * rewrite map_app, <- !app_assoc. apply Permutation_app_head.
        apply Permutation_app_comm.
      * rewrite app_nil_r. apply Permutation_refl.
    + rewrite <- app_assoc. apply Permutation_app_head. apply IH.
Qed.

Lemma reportedSpecifiers_collect restricted generated :
  Permutation
    (reportedSpecifiers restricted (collectImportNames generated))
    (map specifierEntry
       (filter (fun entry => nameIsReported restricted (fst entry)) generated)).
Proof.
  induction generated as [|entry generated IH] using rev_ind;
    [apply Permutation_refl|].
  rewrite collectImportNames_snoc, filter_app, map_app.
  eapply perm_trans; [apply reportedSpecifiers_add|].
  apply Permutation_app; [exact IH|].
  simpl. destruct (nameIsReported restricted (fst entry)); apply Permutation_refl.
Qed.

(** X18.  Under a restricted path that lists import names, the diagnostics
    are, up to their order, one for every generated specifier whose name is
    listed and one for every namespace specifier [*], each with the name and
    the location of its specifier; no other specifier gets one. *)
Theorem restricted_names_reported_once_each
    before p rest groups n kind generateImportNames value restricted generated :
  source n = Some (Literal (VString value)) ->
  forallb (fun q => negb (pathApplies q (trim value) kind)) before = true ->
  pathApplies p (trim value) kind = true ->
  path_importNames p = Some restricted ->
  generateImportNames tt = Some generated ->
  forallb (matcherReturns (trim value)) groups = true ->
  forallb (fun g => negb (groupApplies g (trim value) kind)) groups = true ->
  Permutation
    (map reportedSpecifier
       (diagnostics
          (verify trim (before ++ p :: rest) groups n kind generateImportNames)))
    (map specifierEntry
       (filter (fun entry => nameIsReported restricted (fst entry)) generated)).
Proof.
  intros Hsource Hbefore Hp Hnames Hgenerated Hreturns Hgroups.
  rewrite (verify_literal _ _ _ _ _ _ _ Hsource).
  rewrite (findRestrictedPath_first _ _ rest _ _ Hbefore Hp).
  rewrite Hgenerated, Hnames, !diagnostics_app.
  rewrite (proj1 (findRestrictedPath_checks (before ++ p :: rest)
                    (trim value) kind)).
  rewrite (checkPatterns_silent _ _ _ _ Hreturns Hgroups), app_nil_r.
  change (diagnostics [GenerateImportNames]) with (@nil Diagnostic).
  simpl app.
  rewrite reportImportNames_specifiers.
  apply reportedSpecifiers_collect.
Qed.


(** X20.  Under a restricted path that lists no import names, when the
    matcher of every pattern group returns on the trimmed source and no
    group applies, the declaration gets exactly one path diagnostic, on the
    declaration itself and without a location, whatever its specifiers, and
    [verify] does not throw; the message is the one with the custom message
    exactly when the path has a non-empty one. *)
Theorem restricted_path_reported_once
    before p rest groups n kind generateImportNames value generated :
  source n = Some (Literal (VString value)) ->
  forallb (fun q => negb (pathApplies q (trim value) kind)) before = true ->
  pathApplies p (trim value) kind = true ->
  path_importNames p = None ->
  generateImportNames tt = Some generated ->
  forallb (matcherReturns (trim value)) groups = true ->
  forallb (fun g => negb (groupApplies g (trim value) kind)) groups = true ->
  (exists d,
      diagnostics
        (verify trim (before ++ p :: rest) groups n kind generateImportNames)
      = [mkDiagnostic n
           (if truthy (path_customMessage p)
            then WithCustomMessage path else Base path)
           None d] /\
      importSource d = trim value /\
      customMessage d = path_customMessage p) /\
  existsb isThrown
    (verify trim (before ++ p :: rest) groups n kind generateImportNames)
  = false.
Proof.
  intros Hsource Hbefore Hp Hnames Hgenerated Hreturns Hgroups.
  rewrite (verify_literal _ _ _ _ _ _ _ Hsource).
  rewrite (findRestrictedPath_first _ _ rest _ _ Hbefore Hp).
  rewrite Hgenerated, Hnames. split.
  - rewrite !diagnostics_app.
    rewrite (proj1 (findRestrictedPath_checks (before ++ p :: rest)
                      (trim value) kind)).
    rewrite (checkPatterns_silent _ _ _ _ Hreturns Hgroups), app_nil_r.
    unfold report. simpl. eexists. split; [reflexivity|]. split; reflexivity.
  - rewrite !existsb_app.
    rewrite (proj1 (proj2 (proj2 (findRestrictedPath_checks
                                    (before ++ p :: rest) (trim value) kind)))).
    rewrite checkPatterns_thrown, Hreturns.
    rewrite (proj2 (report_actions n None path (path_importKind p)
                      (path_customMessage p) (trim value) None None)).
    reflexivity.
Qed.

End ImportNames.

Lemma restricted_names_reported_once_each_witness :
  Permutation
    (map reportedSpecifier
       (NoRestrictedImports.diagnostics
          (NoRestrictedImports.visitDeclaration Samples.trimSpaces
             [Samples.restrictFooTypes; Samples.restrictFooNames]
             [Samples.matchFoo] Samples.importFoo)))
    [("b", Some (NoRestrictedImports.mkLoc 1 12 1 13));
     ("b", Some (NoRestrictedImports.mkLoc 1 23 1 29))].
Proof.
  apply (restricted_names_reported_once_each Samples.trimSpaces
           [Samples.restrictFooTypes] Samples.restrictFooNames []
           [Samples.matchFoo]
           Samples.importFoo NoRestrictedImports.ValueImport _ " foo " ["b"]
           [("default", NoRestrictedImports.mkLoc 1 7 1 8);
            ("b", NoRestrictedImports.mkLoc 1 12 1 13);
            ("a", NoRestrictedImports.mkLoc 1 15 1 21);
            ("b", NoRestrictedImports.mkLoc 1 23 1 29)]).
  - reflexivity.
  - vm_compute. reflexivity.
  - vm_compute. reflexivity.
  - reflexivity.
  - reflexivity.
  - vm_compute. reflexivity.
  - vm_compute. reflexivity.
Defined.


Lemma restricted_path_reported_once_witness :
  exists d,
    NoRestrictedImports.diagnostics
      (NoRestrictedImports.visitDeclaration Samples.trimSpaces
         Samples.restrictFoo [Samples.matchFoo] Samples.importFoo)
    = [NoRestrictedImports.mkDiagnostic Samples.importFoo
         (NoRestrictedImports.Base NoRestrictedImports.path) None d] /\
    NoRestrictedImports.importSource d = "foo" /\
    NoRestrictedImports.customMessage d = None.
Proof.
  apply (restricted_path_reported_once Samples.trimSpaces
           [] (NoRestrictedImports.mkPath "foo" NoRestrictedImports.All None None)
           [] [Samples.matchFoo] Samples.importFoo
           NoRestrictedImports.ValueImport _ " foo "
           [("default", NoRestrictedImports.mkLoc 1 7 1 8);
            ("b", NoRestrictedImports.mkLoc 1 12 1 13);
            ("a", NoRestrictedImports.mkLoc 1 15 1 21);
            ("b", NoRestrictedImports.mkLoc 1 23 1 29)]).
  - reflexivity.
  - reflexivity.
  - vm_compute. reflexivity.
  - reflexivity.
  - reflexivity.
  - vm_compute. reflexivity.
  - vm_compute. reflexivity.
Defined.
